(** * Blackjack (blackJack.py): a shallow embedding and its properties

    The Python program is a console Blackjack game.  Its objects are
    embedded as records, its methods as functions over an explicit world
    (the [BlackJack] object, the console and the random source), and its
    exceptions as results. *)

From Stdlib Require Import ZArith List String Ascii Bool Lia DecimalString.
From Stdlib Require Import Permutation.
Import ListNotations.
Open Scope Z_scope.

(** ** Cards *)

Module Cards.

(** [Card.rank] is an [int] for the number cards and a [str] for the
    court cards and the ace. *)
Inductive Rank : Type :=
| RInt (n : Z)
| RStr (s : string).

Record Card : Type := mkCard {
  rank : Rank;
  suit : string;
  value : Z
}.

(** [card.rank == 'A']: an [int] never equals a [str]. *)
Definition rank_is_A (r : Rank) : bool :=
  match r with
  | RInt _ => false
  | RStr s => String.eqb s "A"
  end.

(** [str(card.rank)]. *)
Definition str_rank (r : Rank) : string :=
  match r with
  | RInt n => NilZero.string_of_int (Z.to_int n)
  | RStr s => s
  end.

(** [chr(9824)], [chr(9827)], [chr(9829)], [chr(9830)]. *)
Definition suits : list string := ["♠"; "♣"; "♥"; "♦"]%string.

(** The body of the outer loop of [make_cards] for one suit. *)
Definition cards_of_suit (s : string) : list Card :=
  map (fun r => mkCard (RInt r) s r) [2; 3; 4; 5; 6; 7; 8; 9; 10]
  ++ map (fun r => mkCard (RStr r) s 10) ["J"; "Q"; "K"]%string
  ++ [mkCard (RStr "A") s 1].

(** The list [cards] of [make_cards] just before [random.shuffle]. *)
Definition ordered_cards : list Card := flat_map cards_of_suit suits.

(** [roundup]: Python's [%] is the floored remainder, as [Z.modulo]. *)
Definition roundup (x : Z) : Z :=
  if x mod 100 =? 0 then x else x + 100 - x mod 100.

End Cards.
Export Cards.

(** ** Entities *)

Module Entities.

Record Entity : Type := mkEntity {
  hand : list Card;
  limit : Z;
  name : string
}.

(** A [Player] is an [Entity] with one more attribute, [money]. *)
Record Player : Type := mkPlayer {
  base :> Entity;
  money : Z
}.

(** [Dealer(hand)]. *)
Definition Dealer (h : list Card) : Entity := mkEntity h 17 "Dealer".

(** [Player(hand, money, name)]. *)
Definition NewPlayer (h : list Card) (m : Z) (n : string) : Player :=
  mkPlayer (mkEntity h 21 n) m.

(** First loop of [get_hand_value]: the pair [(aces_count, value)]. *)
Definition count_cards (h : list Card) : nat * Z :=
  fold_left
    (fun acc c =>
       ((if rank_is_A (rank c) then S (fst acc) else fst acc),
        snd acc + value c))
    h (0%nat, 0).

(** Second loop of [get_hand_value]: [for _ in range(aces_count)]. *)
Fixpoint promote_aces (aces_count : nat) (lim v : Z) : Z :=
  match aces_count with
  | O => v
  | S k => promote_aces k lim (if v + 10 <=? lim then v + 10 else v)
  end.

Definition get_hand_value (e : Entity) : Z :=
  let (aces_count, v) := count_cards (hand e) in
  promote_aces aces_count (limit e) v.

Definition with_hand (e : Entity) (h : list Card) : Entity :=
  mkEntity h (limit e) (name e).

Definition player_with_hand (p : Player) (h : list Card) : Player :=
  mkPlayer (with_hand p h) (money p).

Definition player_with_money (p : Player) (m : Z) : Player :=
  mkPlayer (base p) m.

End Entities.
Export Entities.

(** ** The hand scorer as the specification words it *)

Module ScoreSpec.

(** Face value for 2-10, 10 for J/Q/K, 1 per ace. *)
Definition base_value (r : Rank) : Z :=
  match r with
  | RInt n => n
  | RStr s => if String.eqb s "A" then 1 else 10
  end.

Definition base_total (h : list Card) : Z :=
  fold_right (fun c acc => base_value (rank c) + acc) 0 h.

Definition aces (h : list Card) : nat :=
  List.length (filter (fun c => rank_is_A (rank c)) h).

(** For each ace present, ten more points are added if that keeps the
    running total at or below the ceiling. *)
Definition promote_each (present : list Card) (ceiling total : Z) : Z :=
  fold_left (fun t _ => if t + 10 <=? ceiling then t + 10 else t)
            present total.

Definition score (h : list Card) (ceiling : Z) : Z :=
  promote_each (filter (fun c => rank_is_A (rank c)) h) ceiling
               (base_total h).

(** How many aces a hand can count as 11 under a ceiling. *)
Definition promoted (h : list Card) (ceiling : Z) : Z :=
  Z.min (Z.of_nat (aces h)) (Z.max 0 ((ceiling - base_total h) / 10)).

(** A card as [make_cards] builds it. *)
Definition standard (c : Card) : Prop := In c ordered_cards.

End ScoreSpec.
Export ScoreSpec.

(** ** The world: the game object, the console and the random source *)

Module Runtime.

(** The string built-ins the program applies to what the user types and
    to names: [str.strip], [str.upper], [str.lower], and [int], which
    gives [None] where Python raises [ValueError]. *)
Class Builtins : Type := {
  str_strip : string -> string;
  str_upper : string -> string;
  str_lower : string -> string;
  py_int : string -> option Z
}.

Definition nl : string := String (ascii_of_nat 10) EmptyString.

(** One constructor per [print] of the program, carrying the values the
    text is formatted from; [Shown] is what [show_all_cards] returns. *)
Inductive Message : Type :=
| Text (s : string)
| Prompt (s : string)
| Rules
| Credited (amt : Z)
| MoneyAvailable (amt : Z)
| PlayerBet (amt : Z)
| EnterAmount (amt : Z)
| ChoosesCard (who : string)
| Draws (who : string) (r : Rank) (s : string)
| StandsDown (who : string)
| DoublesDown (who : string)
| BetIncreased (who : string) (by_ : Z) (to_ : Z)
| DecidedToSplit (who : string)
| HasBet (who : string) (amt : Z)
| PickMove (who : string)
| DealerTotal (v : Z)
| HandTotal (who : string) (v : Z)
| Shown (h : list Card) (hide_first : bool)
| GoesBust (who : string)
| Lost (who : string) (amt : Z)
| DealerBust (who : string) (amt : Z)
| HandsAre (dealer_value : Z) (who : string) (entity_value : Z)
| Won (who : string) (amt : Z)
| ClearScreen.

Record BlackJack : Type := mkBlackJack {
  start_amount : Z;
  deck : list Card;
  player_name : string;
  player : Player;
  dealer : Entity;
  player_split : Player;
  split : bool
}.

Record World : Type := mkWorld {
  self : BlackJack;
  stdin : list string;
  stdout : list Message;
  rng : nat -> nat;
  rng_used : nat
}.

Inductive Exn : Type := SystemExit | IndexError | EOFError.

Inductive Res (A : Type) : Type :=
| Val (a : A)
| Raise (e : Exn)
| NoFuel.
Arguments Val {A} a.
Arguments Raise {A} e.
Arguments NoFuel {A}.

Definition M (A : Type) : Type := World -> Res A * World.

Definition ret {A} (a : A) : M A := fun w => (Val a, w).

Definition bind {A B} (m : M A) (f : A -> M B) : M B :=
  fun w =>
    match m w with
    | (Val a, w') => f a w'
    | (Raise e, w') => (Raise e, w')
    | (NoFuel, w') => (NoFuel, w')
    end.

Definition raise {A} (e : Exn) : M A := fun w => (Raise e, w).
Definition out_of_fuel {A} : M A := fun w => (NoFuel, w).

Declare Scope py_scope.
Delimit Scope py_scope with py.
Notation "x <- m ;; k" := (bind m (fun x => k))
  (at level 61, m at next level, right associativity) : py_scope.
Notation "m ;; k" := (bind m (fun _ => k))
  (at level 61, right associativity) : py_scope.
Open Scope py_scope.

Definition get : M BlackJack := fun w => (Val (self w), w).

Definition modify (f : BlackJack -> BlackJack) : M unit :=
  fun w => (Val tt, mkWorld (f (self w)) (stdin w) (stdout w) (rng w) (rng_used w)).

Definition print (m : Message) : M unit :=
  fun w => (Val tt, mkWorld (self w) (stdin w) (stdout w ++ [m]) (rng w) (rng_used w)).

Definition read_line : M string :=
  fun w =>
    match stdin w with
    | [] => (Raise EOFError, w)
    | l :: rest => (Val l, mkWorld (self w) rest (stdout w) (rng w) (rng_used w))
    end.

(** [input(prompt)]: writes the prompt, then reads one line. *)
Definition input (prompt : string) : M string :=
  print (Prompt prompt) ;; read_line.

(** [sys.exit()]. *)
Definition sys_exit {A} : M A := raise SystemExit.

(** [random]'s draw of an integer below [n], [n] positive. *)
Definition randbelow (n : nat) : M nat :=
  fun w => (Val (Nat.modulo (rng w (rng_used w)) n),
            mkWorld (self w) (stdin w) (stdout w) (rng w) (S (rng_used w))).

(** [random.randint(a, b)]. *)
Definition randint (a b : Z) : M Z :=
  k <- randbelow (Z.to_nat (b - a + 1)) ;; ret (a + Z.of_nat k).

(** [list.pop()] removes and returns the last item. *)
Fixpoint pop_last {A} (l : list A) : option (A * list A) :=
  match l with
  | [] => None
  | x :: r =>
      match pop_last r with
      | None => Some (x, [])
      | Some (y, r') => Some (y, x :: r')
      end
  end.

(** [x[i], x[j] = x[j], x[i]] with both indices in range. *)
Fixpoint set_nth {A} (i : nat) (a : A) (l : list A) : list A :=
  match l, i with
  | [], _ => []
  | _ :: r, O => a :: r
  | x :: r, S k => x :: set_nth k a r
  end.

Definition swap {A} (i j : nat) (l : list A) : list A :=
  match nth_error l i, nth_error l j with
  | Some a, Some b => set_nth j a (set_nth i b l)
  | _, _ => l
  end.

(** [random.shuffle]: [for i in reversed(range(1, len(x)))], with
    [j = randbelow(i + 1)] and a swap of positions [i] and [j]. *)
Fixpoint shuffle_from {A} (i : nat) (x : list A) : M (list A) :=
  match i with
  | O => ret x
  | S k => j <- randbelow (S i) ;; shuffle_from k (swap i j x)
  end.

Definition shuffle {A} (x : list A) : M (list A) :=
  shuffle_from (List.length x - 1) x.

Definition make_cards : M (list Card) := shuffle ordered_cards.

End Runtime.
Export Runtime.

(** ** The class [BlackJack] *)

Module Game.

(** The two [Player] objects a [BlackJack] holds: [self.player] and
    [self.player_split].  A method's [entity] argument is one of them. *)
Inductive Who : Type := Main | Second.

(** What [entity_possible_moves] can return: ['H'], ['S'], ['D'], ['X'].
    The [move.upper()] of [entity_play] leaves each of them as it is. *)
Inductive Move : Type := Hit | Stand | DoubleDown | Split.

Definition get_entity (e : Who) (g : BlackJack) : Player :=
  match e with
  | Main => player g
  | Second => player_split g
  end.

Definition set_entity (e : Who) (p : Player) (g : BlackJack) : BlackJack :=
  match e with
  | Main =>
      mkBlackJack (start_amount g) (deck g) (player_name g) p (dealer g)
                  (player_split g) (split g)
  | Second =>
      mkBlackJack (start_amount g) (deck g) (player_name g) (player g)
                  (dealer g) p (split g)
  end.

Definition set_deck (d : list Card) (g : BlackJack) : BlackJack :=
  mkBlackJack (start_amount g) d (player_name g) (player g) (dealer g)
              (player_split g) (split g).

Definition set_dealer (d : Entity) (g : BlackJack) : BlackJack :=
  mkBlackJack (start_amount g) (deck g) (player_name g) (player g) d
              (player_split g) (split g).

Definition set_split (b : bool) (g : BlackJack) : BlackJack :=
  mkBlackJack (start_amount g) (deck g) (player_name g) (player g)
              (dealer g) (player_split g) b.

Definition set_start_amount (a : Z) (g : BlackJack) : BlackJack :=
  mkBlackJack a (deck g) (player_name g) (player g) (dealer g)
              (player_split g) (split g).

(** [player_or_split]: [entity == self.player], the identity of objects. *)
Definition player_or_split (e : Who) : bool :=
  match e with
  | Main => true
  | Second => false
  end.

(** [self.deck.pop()]. *)
Definition deck_pop : M Card :=
  g <- get ;;
  match pop_last (deck g) with
  | None => raise IndexError
  | Some (c, d) => modify (set_deck d) ;; ret c
  end.

(** [entity.hand.append(card)]. *)
Definition hand_append (e : Who) (c : Card) : M unit :=
  modify (fun g =>
            set_entity e (player_with_hand (get_entity e g)
                                           (hand (get_entity e g) ++ [c])) g).

(** The first part of [entity_possible_moves]: the list [moves]. *)
Definition moves_offered (g : BlackJack) (e : Who) : list string :=
  let p := get_entity e g in
  ["(H)it"; "(S)tand"]%string ++
  if (Nat.eqb (List.length (hand p)) 2)
       && (start_amount g - money p >=? money p)
       && player_or_split e && negb (split g)
  then
    "(D)ouble down"%string ::
    match hand p with
    | c0 :: c1 :: _ =>
        if String.eqb (str_rank (rank c0)) (str_rank (rank c1))
        then ["(X)split"%string] else []
    | _ => []
    end
  else [].

(** [s in moves]. *)
Definition mem (s : string) (l : list string) : bool :=
  existsb (String.eqb s) l.

Section Methods.

Context {py : Builtins}.

(** [show_all_cards]: [card_split[0]] raises on an empty hand. *)
Definition show_all_cards (e : Entity) (hide_first : bool) : M Message :=
  match hand e with
  | [] => raise IndexError
  | _ :: _ => ret (Shown (hand e) hide_first)
  end.

Definition print_total (e : Entity) (show_dealer_tot : bool) : M unit :=
  g <- get ;;
  if String.eqb (str_lower (name e)) "dealer" then
    if negb show_dealer_tot
    then print (Text "Dealer hand total: ???")
    else print (DealerTotal (get_hand_value (dealer g)))
  else print (HandTotal (name e) (get_hand_value e)).

Definition display_scores
    (flag_dealer show_dealer show_player_main show_player_split : bool)
    : M unit :=
  (if show_dealer then
     g <- get ;;
     print_total (dealer g) flag_dealer ;;
     s <- show_all_cards (dealer g) (negb flag_dealer) ;;
     print s
   else ret tt) ;;
  (if show_player_main then
     g <- get ;;
     print_total (player g) false ;;
     s <- show_all_cards (player g) false ;;
     print s
   else ret tt) ;;
  (if show_player_split then
     g <- get ;;
     (if split g then print_total (player_split g) false else ret tt) ;;
     (if split g
      then s <- show_all_cards (player_split g) false ;; print s
      else ret tt)
   else ret tt).

Definition entity_hit (e : Who) : M unit :=
  card <- deck_pop ;;
  g <- get ;;
  print (ChoosesCard (name (get_entity e g))) ;;
  print (Draws (name (get_entity e g)) (rank card) (suit card)) ;;
  hand_append e card ;;
  display_scores false true true true.

Fixpoint entity_bet_loop (fuel : nat) (e : Who) (amt : Z) : M Z :=
  match fuel with
  | O => out_of_fuel
  | S k =>
      print (EnterAmount amt) ;;
      line <- input "> " ;;
      let money_to_bet := str_upper (str_strip line) in
      if String.eqb money_to_bet "Q" then
        print (Text "Thanks for playing.") ;;
        print (Text "..or maybe you can't actually play :)") ;;
        sys_exit
      else
        match py_int money_to_bet with
        | None =>
            print (Text ("Enter a valid amount." ++ nl)) ;;
            entity_bet_loop k e amt
        | Some m =>
            if (1 <=? m) && (m <=? amt) then
              modify (fun g =>
                        set_entity e (player_with_money (get_entity e g) m) g) ;;
              ret m
            else
              print (Text ("Amount not within range." ++ nl)) ;;
              entity_bet_loop k e amt
        end
  end.

(** Every turn of the [while True] reads a line, so the lines left on the
    console bound the number of turns. *)
Definition entity_bet (e : Who) (amt : Z) : M Z :=
  fun w => entity_bet_loop (S (List.length (stdin w))) e amt w.

Definition entity_stand (e : Who) : M unit :=
  g <- get ;; print (StandsDown (name (get_entity e g))).

Definition entity_double_down (e : Who) : M unit :=
  g <- get ;;
  let p := get_entity e g in
  print (DoublesDown (name p)) ;;
  let new_bet := money p * 2 in
  print (BetIncreased (name p) (money p) new_bet) ;;
  modify (set_entity e (player_with_money p new_bet)) ;;
  entity_hit e ;;
  g' <- get ;;
  if get_hand_value (get_entity e g') >? 21 then ret tt
  else entity_stand e.

Definition entity_split : M unit :=
  modify (set_split true) ;;
  g <- get ;;
  print (DecidedToSplit (name (player g))) ;;
  match pop_last (hand (player g)) with
  | None => raise IndexError
  | Some (card, rest) =>
      modify (set_entity Main (player_with_hand (player g) rest)) ;;
      fresh <- deck_pop ;;
      modify (fun g =>
                set_entity Second
                  (player_with_hand (player_split g)
                     (hand (player_split g) ++ [card; fresh])) g) ;;
      modify (fun g =>
                set_entity Second
                  (player_with_money (player_split g) (money (player g))) g) ;;
      g1 <- get ;;
      print (HasBet (name (player_split g1)) (money (player g1))) ;;
      fresh' <- deck_pop ;;
      hand_append Main fresh' ;;
      print (Text EmptyString)
  end.

Fixpoint entity_possible_moves_loop
    (fuel : nat) (moves : list string) (prompt : string) : M Move :=
  match fuel with
  | O => out_of_fuel
  | S k =>
      line <- input prompt ;;
      let player_choice := str_upper (str_strip line) in
      if String.eqb player_choice "H" then ret Hit
      else if String.eqb player_choice "S" then ret Stand
      else if String.eqb player_choice "D" && mem "(D)ouble down" moves
      then ret DoubleDown
      else if String.eqb player_choice "X" && mem "(X)split" moves
      then ret Split
      else
        print (Text "Enter a valid choice.") ;;
        entity_possible_moves_loop k moves prompt
  end.

Definition entity_possible_moves (e : Who) : M Move :=
  g <- get ;;
  let moves := moves_offered g e in
  let prompt := (String.concat ", " moves ++ "> ")%string in
  fun w =>
    entity_possible_moves_loop (S (List.length (stdin w))) moves prompt w.

Fixpoint dealer_play_loop (fuel : nat) : M unit :=
  match fuel with
  | O => out_of_fuel
  | S k =>
      g <- get ;;
      if get_hand_value (dealer g) <? 17 then
        print (Text "Dealer hits...") ;;
        card <- deck_pop ;;
        modify (fun g => set_dealer (with_hand (dealer g)
                                               (hand (dealer g) ++ [card])) g) ;;
        display_scores false true true true ;;
        g' <- get ;;
        if get_hand_value (dealer g') >? limit (dealer g') + 4 then ret tt
        else
          input "Press Enter to continue..." ;;
          print (Text nl) ;;
          dealer_play_loop k
      else ret tt
  end.

(** Every turn of the [while] takes a card, so the deck bounds the
    number of turns. *)
Definition dealer_play : M unit :=
  fun w => dealer_play_loop (S (List.length (deck (self w)))) w.

Fixpoint entity_play_loop (fuel : nat) (e : Who) : M unit :=
  match fuel with
  | O => out_of_fuel
  | S k =>
      g <- get ;;
      if get_hand_value (get_entity e g) >? limit (get_entity e g)
      then ret tt
      else
        print (PickMove (name (get_entity e g))) ;;
        move <- entity_possible_moves Main ;;
        match move with
        | Stand => entity_stand e
        | DoubleDown => entity_double_down e
        | Hit => entity_hit e ;; entity_play_loop k e
        | Split =>
            entity_split ;;
            display_scores false true true true ;;
            g' <- get ;;
            if player_or_split e
               && (get_hand_value (player g') <? limit (player g'))
            then entity_play_loop k e
            else ret tt
        end
  end.

Definition entity_play (e : Who) : M unit :=
  g <- get ;;
  if negb (player_or_split e) && negb (split g) then ret tt
  else fun w => entity_play_loop (S (List.length (stdin w))) e w.

Definition check_if_dealer_plays : M unit :=
  g <- get ;;
  if get_hand_value (player g) <=? limit (player g) then dealer_play
  else if split g
          && (get_hand_value (player_split g) <=? limit (player_split g))
  then dealer_play
  else ret tt.

Definition check_who_wins (e : Who) : M unit :=
  g <- get ;;
  let flag := player_or_split e in
  if negb (player_or_split e) && negb (split g) then ret tt
  else
    let p := get_entity e g in
    let entity_value := get_hand_value p in
    let dealer_value := get_hand_value (dealer g) in
    display_scores true true flag (negb flag) ;;
    if entity_value >? limit p then
      print (GoesBust (name p)) ;;
      print (Lost (name p) (money p)) ;;
      modify (fun g => set_start_amount (start_amount g - money p) g)
    else if dealer_value >? 21 then
      print (DealerBust (name p) (money p)) ;;
      modify (fun g => set_start_amount (start_amount g + money p) g)
    else if entity_value <? dealer_value then
      print (HandsAre dealer_value (name p) entity_value) ;;
      print (Lost (name p) (money p)) ;;
      modify (fun g => set_start_amount (start_amount g - money p) g)
    else if entity_value >? dealer_value then
      print (Won (name p) (money p)) ;;
      modify (fun g => set_start_amount (start_amount g + money p) g)
    else if entity_value =? dealer_value then
      print (Text "It's a tie, the bet is returned to you.")
    else ret tt.

(** The four [self.deck.pop()] of [__init__] and [reset], and the objects
    built from them. *)
Definition deal (amount : Z) (pname : string) : M unit :=
  cards <- make_cards ;;
  modify (set_deck cards) ;;
  p1 <- deck_pop ;;
  p2 <- deck_pop ;;
  d1 <- deck_pop ;;
  d2 <- deck_pop ;;
  modify (fun g =>
            mkBlackJack amount (deck g) pname
                        (NewPlayer [p1; p2] 0 pname)
                        (Dealer [d1; d2])
                        (NewPlayer [] 0 (pname ++ " hand_two"))
                        false).

(** [BlackJack.__init__(player_name)]. *)
Definition init (pname : string) : M unit :=
  amount <- randint 1000 10000 ;;
  deal (roundup amount) pname.

Definition reset : M unit :=
  g <- get ;; deal (start_amount g) (player_name g).

Fixpoint game_loop (fuel : nat) : M unit :=
  match fuel with
  | O => out_of_fuel
  | S k =>
      g <- get ;;
      if start_amount g <? 1 then
        print (Text "You've run out of money") ;;
        print (Text "Good thing you weren't using real money.") ;;
        print (Text "Try to seek professional help for your gambling problems.") ;;
        sys_exit
      else
        print (MoneyAvailable (start_amount g)) ;;
        amt_to_bet <- entity_bet Main (start_amount g) ;;
        print (PlayerBet amt_to_bet) ;;
        display_scores false true true true ;;
        entity_play Main ;;
        entity_play Second ;;
        check_if_dealer_plays ;;
        check_who_wins Main ;;
        check_who_wins Second ;;
        input "Press Enter to continue..." ;;
        print (Text nl) ;;
        reset ;;
        print ClearScreen ;;
        game_loop k
  end.

(** Every round reads at least the bet, so the lines left on the console
    bound the number of rounds. *)
Definition game : M unit :=
  print Rules ;;
  g <- get ;;
  print (Credited (start_amount g)) ;;
  fun w => game_loop (S (List.length (stdin w))) w.

End Methods.

End Game.
Export Game.

(** ** The built-ins on ASCII text *)

Module AsciiText.

Definition upper_ascii (c : ascii) : ascii :=
  let n := nat_of_ascii c in
  if (97 <=? n)%nat && (n <=? 122)%nat then ascii_of_nat (n - 32) else c.

Definition lower_ascii (c : ascii) : ascii :=
  let n := nat_of_ascii c in
  if (65 <=? n)%nat && (n <=? 90)%nat then ascii_of_nat (n + 32) else c.

Fixpoint map_string (f : ascii -> ascii) (s : string) : string :=
  match s with
  | EmptyString => EmptyString
  | String c r => String (f c) (map_string f r)
  end.

(** The ASCII characters [str.isspace] accepts. *)
Definition is_space (c : ascii) : bool :=
  let n := nat_of_ascii c in
  ((9 <=? n)%nat && (n <=? 13)%nat)
  || ((28 <=? n)%nat && (n <=? 32)%nat).

Fixpoint lstrip (s : string) : string :=
  match s with
  | EmptyString => EmptyString
  | String c r => if is_space c then lstrip r else s
  end.

Fixpoint rstrip (s : string) : string :=
  match s with
  | EmptyString => EmptyString
  | String c r =>
      match rstrip r with
      | EmptyString => if is_space c then EmptyString else String c EmptyString
      | r' => String c r'
      end
  end.

Definition strip (s : string) : string := rstrip (lstrip s).

Definition digit_of (c : ascii) : option Z :=
  let n := nat_of_ascii c in
  if (48 <=? n)%nat && (n <=? 57)%nat then Some (Z.of_nat (n - 48)) else None.

(** Decimal digits, with single underscores allowed between digits. *)
Fixpoint digits (s : string) (acc : Z) (after_digit : bool) : option Z :=
  match s with
  | EmptyString => if after_digit then Some acc else None
  | String c r =>
      match digit_of c with
      | Some d => digits r (10 * acc + d) true
      | None =>
          if Ascii.eqb c "_" && after_digit then digits r acc false else None
      end
  end.

Definition int (s : string) : option Z :=
  match strip s with
  | String "+" r => digits r 0 false
  | String "-" r => option_map Z.opp (digits r 0 false)
  | t => digits t 0 false
  end.

(** The built-ins on ASCII text, where they agree with Python's. *)
Definition builtins : Builtins :=
  {| str_strip := strip;
     str_upper := map_string upper_ascii;
     str_lower := map_string lower_ascii;
     py_int := int |}.

End AsciiText.

(** ** Worlds, and what the methods leave of them *)

Module Worlds.

(** The world after more has been printed. *)
Definition add_out (w : World) (out : list Message) : World :=
  mkWorld (self w) (stdin w) (stdout w ++ out) (rng w) (rng_used w).

(** The world with another game object. *)
Definition with_self (w : World) (g : BlackJack) : World :=
  mkWorld g (stdin w) (stdout w) (rng w) (rng_used w).

(** The world with other lines left to read. *)
Definition with_stdin (w : World) (l : list string) : World :=
  mkWorld (self w) l (stdout w) (rng w) (rng_used w).

(** The world a method leaves: another game object, the lines still to
    be read, and more printed. *)
Definition after (w : World) (g : BlackJack) (lines : list string)
    (out : list Message) : World :=
  mkWorld g lines (stdout w ++ out) (rng w) (rng_used w).

(** What [display_scores] needs not to raise: the hands it shows have a
    first card. *)
Definition shown_ok (show_dealer show_main show_split : bool)
    (g : BlackJack) : Prop :=
  (show_dealer = true -> hand (dealer g) <> [])
  /\ (show_main = true -> hand (player g) <> [])
  /\ (show_split = true -> split g = true -> hand (player_split g) <> []).

(** A computation that only prints, and raises [IndexError] exactly when
    [ok] fails of the game object. *)
Definition display_like (ok : BlackJack -> Prop) (m : M unit) : Prop :=
  forall w, exists out,
    (ok (self w) /\ m w = (Val tt, add_out w out))
    \/ (~ ok (self w) /\ m w = (Raise IndexError, add_out w out)).

(** The dealer's score once [cards] have been added to the hand. *)
Definition dealer_score_after (g : BlackJack) (cards : list Card) : Z :=
  get_hand_value (with_hand (dealer g) (hand (dealer g) ++ cards)).

(** The game object once the dealer has drawn [drawn], in that order,
    and [rest] is left of the deck. *)
Definition dealer_drew (g : BlackJack) (rest drawn : list Card)
    : BlackJack :=
  set_dealer (with_hand (dealer g) (hand (dealer g) ++ drawn))
             (set_deck rest g).

(** The lines the dealer's turn reads: one after each draw, except after
    a draw that takes the score above 21. *)
Definition pauses (g : BlackJack) (drawn : list Card) : nat :=
  match drawn with
  | [] => 0
  | _ :: _ =>
      if dealer_score_after g drawn >? 21
      then List.length drawn - 1
      else List.length drawn
  end.

(** The game object once [entity] has been dealt the top card [c] of a
    deck [d ++ [c]]. *)
Definition dealt (e : Who) (c : Card) (d : list Card) (g : BlackJack)
    : BlackJack :=
  set_entity e
    (player_with_hand (get_entity e g) (hand (get_entity e g) ++ [c]))
    (set_deck d g).

(** The game object once [entity] has doubled its bet and taken the top
    card. *)
Definition doubled (e : Who) (c : Card) (d : list Card) (g : BlackJack)
    : BlackJack :=
  dealt e c d
    (set_entity e
       (player_with_money (get_entity e g) (money (get_entity e g) * 2)) g).

(** The game object after a split of the main hand [[a; b]] with [c1]
    on top of the deck and [c2] under it. *)
Definition split_hands (a b c1 c2 : Card) (d : list Card) (g : BlackJack)
    : BlackJack :=
  mkBlackJack (start_amount g) d (player_name g)
    (player_with_hand (player g) [a; c2])
    (dealer g)
    (mkPlayer (with_hand (player_split g) [b; c1]) (money (player g)))
    true.

(** A computation that has fuel enough and reads lines only forwards. *)
Definition reads {A} (m : M A) : Prop :=
  forall w r w',
    m w = (r, w') ->
    r <> NoFuel /\ (List.length (stdin w') <= List.length (stdin w))%nat.

(** A computation that, besides, reads at least one line before it
    returns a value. *)
Definition reads_some {A} (m : M A) : Prop :=
  forall w r w',
    m w = (r, w') ->
    r <> NoFuel
    /\ (List.length (stdin w') <= List.length (stdin w))%nat
    /\ (forall a, r = Val a ->
                  (List.length (stdin w') < List.length (stdin w))%nat).

(** The same of worlds with at most [n] lines left. *)
Definition reads_w {A} (n : nat) (m : M A) : Prop :=
  forall w r w',
    (List.length (stdin w) <= n)%nat ->
    m w = (r, w') ->
    r <> NoFuel /\ (List.length (stdin w') <= List.length (stdin w))%nat.

Definition reads_some_w {A} (n : nat) (m : M A) : Prop :=
  forall w r w',
    (List.length (stdin w) <= n)%nat ->
    m w = (r, w') ->
    r <> NoFuel
    /\ (List.length (stdin w') <= List.length (stdin w))%nat
    /\ (forall a, r = Val a ->
                  (List.length (stdin w') < List.length (stdin w))%nat).

(** A computation that ends only by raising. *)
Definition never_returns {A} (m : M A) : Prop :=
  forall w r w' a, m w = (r, w') -> r <> Val a.

(** The game object as [__init__] and [reset] leave it: two cards each
    for the player and the dealer, an empty second hand, no bet, no
    split, the ceilings 21 and 17. *)
Definition fresh_round (g : BlackJack) : Prop :=
  (exists p1 p2, player g = NewPlayer [p1; p2] 0 (player_name g))
  /\ (exists d1 d2, dealer g = Dealer [d1; d2])
  /\ player_split g = NewPlayer [] 0 (player_name g ++ " hand_two")
  /\ split g = false.

Definition broke_messages : list Message :=
  [Text "You've run out of money";
   Text "Good thing you weren't using real money.";
   Text "Try to seek professional help for your gambling problems."].

End Worlds.
Export Worlds.

(** ** Cards and tables for the examples *)

Module Examples.

Definition ace (s : string) : Card := mkCard (RStr "A") s 1.
Definition king (s : string) : Card := mkCard (RStr "K") s 10.
Definition queen (s : string) : Card := mkCard (RStr "Q") s 10.
Definition number (n : Z) (s : string) : Card := mkCard (RInt n) s n.

(** A pair of eights against a dealer's eleven, a bet of 100 out of
    1000; the four of clubs is on top of the deck. *)
Definition pair_table : BlackJack :=
  mkBlackJack 1000
    [number 2 "♠"; king "♥"; number 3 "♦"; number 4 "♣"]
    "chinedu"
    (NewPlayer [number 8 "♠"; number 8 "♥"] 100 "chinedu")
    (Dealer [number 5 "♠"; number 6 "♦"])
    (NewPlayer [] 0 "chinedu hand_two")
    false.

(** A hand of fifteen with a queen on top of the deck. *)
Definition stiff_table : BlackJack :=
  mkBlackJack 1000
    [number 2 "♠"; queen "♥"]
    "chinedu"
    (NewPlayer [king "♠"; number 5 "♥"] 100 "chinedu")
    (Dealer [number 5 "♠"; number 6 "♦"])
    (NewPlayer [] 0 "chinedu hand_two")
    false.

(** The table of a player who has lost everything. *)
Definition broke_table : BlackJack :=
  mkBlackJack 0
    [number 2 "♠"; queen "♥"]
    "chinedu"
    (NewPlayer [king "♠"; number 5 "♥"] 0 "chinedu")
    (Dealer [number 5 "♠"; number 6 "♦"])
    (NewPlayer [] 0 "chinedu hand_two")
    false.

(** A dealer holding an ace and a nine, with a five on top of the deck
    and a king under it. *)
Definition soft_table : BlackJack :=
  mkBlackJack 1000
    [number 2 "♠"; king "♥"; number 5 "♦"]
    "chinedu"
    (NewPlayer [number 8 "♠"; number 8 "♥"] 100 "chinedu")
    (Dealer [ace "♠"; number 9 "♥"])
    (NewPlayer [] 0 "chinedu hand_two")
    false.

(** A king and a queen: two cards worth 10 each, of different ranks. *)
Definition royal_table : BlackJack :=
  mkBlackJack 1000
    [number 2 "♠"; king "♥"; number 3 "♦"; number 4 "♣"]
    "chinedu"
    (NewPlayer [king "♠"; queen "♥"] 100 "chinedu")
    (Dealer [number 5 "♠"; number 6 "♦"])
    (NewPlayer [] 0 "chinedu hand_two")
    false.

Definition sitting_at (g : BlackJack) (lines : list string) : World :=
  mkWorld g lines [] (fun n => n) 0%nat.

End Examples.
Export Examples.

(** ** What the game keeps: cards and money *)

Module Invariants.

(** Every card a game holds: the deck and the three hands. *)
Definition all_cards (g : BlackJack) : list Card :=
  deck g ++ hand (player g) ++ hand (player_split g) ++ hand (dealer g).

(** The plain sum of the cards, each ace counted 1. *)
Definition hard_total (h : list Card) : Z :=
  fold_right (fun c acc => value c + acc) 0 h.

(** The cards of the game are those of [cs], in some order. *)
Definition holds_cards (cs : list Card) (g : BlackJack) : Prop :=
  Permutation cs (all_cards g).

(** A specification of a computation over the game object: from a state
    in [P], a value [a] comes with a state in [Q a], and an exception
    leaves a state in [I]. *)
Definition triple {A} (I P : BlackJack -> Prop) (m : M A)
    (Q : A -> BlackJack -> Prop) : Prop :=
  forall w r w',
    P (self w) -> m w = (r, w') ->
    match r with
    | Val a => Q a (self w')
    | Raise _ => I (self w')
    | NoFuel => I (self w')
    end.

(** A computation that leaves [view] of the game object as it is,
    however it ends. *)
Definition keeps {A X} (view : BlackJack -> X) (m : M A) : Prop :=
  forall w r w', m w = (r, w') -> view (self w') = view (self w).

(** The money side of the game: bankroll, the two bets, the split flag. *)
Definition bank (g : BlackJack) : Z * Z * Z * bool :=
  (start_amount g, money (player g), money (player_split g), split g).

(** The bets are covered by the bankroll. *)
Definition stake_ok (g : BlackJack) : Prop :=
  0 <= money (player g)
  /\ 0 <= money (player_split g)
  /\ money (player g) + money (player_split g) <= start_amount g
  /\ (split g = false -> money (player_split g) = 0).

(** The money side between two rounds. *)
Definition no_stake (g : BlackJack) : Prop :=
  split g = false /\ money (player_split g) = 0 /\ 0 <= start_amount g.

(** What the dealer's turn leaves alone: the two hands of the player and
    the money side. *)
Definition player_side (g : BlackJack) : Player * Player * (Z * Z * Z * bool) :=
  (player g, player_split g, bank g).

(** The bankroll is not negative. *)
Definition solvent (g : BlackJack) : Prop := 0 <= start_amount g.

(** The main hand is settled: what is left covers the second bet. *)
Definition second_covered (g : BlackJack) : Prop :=
  0 <= money (player_split g) <= start_amount g.

(** The last lines of the file: [BlackJack("chinedu").game()]. *)
Definition main {py : Builtins} : M unit := init "chinedu" ;; game.

End Invariants.
Export Invariants.

(** ** Scoring *)

Module ScoreFacts.

Lemma count_cards_acc (h : list Card) (a : nat) (v : Z) :
  fold_left
    (fun acc c =>
       ((if rank_is_A (rank c) then S (fst acc) else fst acc),
        snd acc + value c))
    h (a, v)
  = ((a + aces h)%nat, v + fold_right (fun c acc => value c + acc) 0 h).
Proof.
  revert a v.
  induction h as [|c h IH]; intros a v; cbn [fold_left fold_right].
  - unfold aces; cbn. f_equal; lia.
  - rewrite IH. cbn [fst snd]. unfold aces. cbn [filter].
    destruct (rank_is_A (rank c)); cbn [List.length]; f_equal; lia.
Qed.

Lemma standard_value (c : Card) :
  standard c -> value c = base_value (rank c).
Proof.
  unfold standard, ordered_cards. cbn.
  intros H.
  repeat (destruct H as [H|H]; [subst c; reflexivity|]).
  contradiction.
Qed.

Lemma standard_total (h : list Card) :
  Forall standard h ->
  fold_right (fun c acc => value c + acc) 0 h = base_total h.
Proof.
  induction 1 as [|c h Hc _ IH]; cbn.
  - reflexivity.
  - rewrite IH, (standard_value c Hc). reflexivity.
Qed.

Lemma promote_aces_each (l : list Card) (lim v : Z) :
  promote_aces (List.length l) lim v = promote_each l lim v.
Proof.
  revert v. induction l as [|c l IH]; intros v; cbn.
  - reflexivity.
  - apply IH.
Qed.

Lemma promote_aces_closed (n : nat) (lim v : Z) :
  promote_aces n lim v
  = v + 10 * Z.min (Z.of_nat n) (Z.max 0 ((lim - v) / 10)).
Proof.
  revert v. induction n as [|n IH]; intros v.
  - cbn [promote_aces]. change (Z.of_nat 0) with 0. lia.
  - cbn [promote_aces]. rewrite IH.
    pose proof (Z.div_mod (lim - v) 10 ltac:(lia)) as Hq.
    pose proof (Z.mod_pos_bound (lim - v) 10 ltac:(lia)) as Hr.
    destruct (Z.leb_spec (v + 10) lim) as [Hle|Hgt].
    + replace (lim - (v + 10)) with (lim - v + (-1) * 10) by lia.
      rewrite Z.div_add by lia.
      lia.
    + lia.
Qed.

(** The value the code computes, in general: cards keep their own
    [value], and [limit] is the ceiling. *)
Lemma get_hand_value_unfold (e : Entity) :
  get_hand_value e
  = promote_aces (aces (hand e)) (limit e)
                 (fold_right (fun c acc => value c + acc) 0 (hand e)).
Proof.
  unfold get_hand_value, count_cards.
  rewrite count_cards_acc. cbn. reflexivity.
Qed.

Lemma get_hand_value_score (e : Entity) :
  Forall standard (hand e) ->
  get_hand_value e = score (hand e) (limit e).
Proof.
  intros Hs. rewrite get_hand_value_unfold, (standard_total _ Hs).
  unfold aces, score. apply promote_aces_each.
Qed.

Lemma score_closed (h : list Card) (ceiling : Z) :
  score h ceiling = base_total h + 10 * promoted h ceiling.
Proof.
  unfold score, promoted, aces.
  rewrite <- promote_aces_each. apply promote_aces_closed.
Qed.

(** The value never falls below the plain sum of the cards. *)
Lemma get_hand_value_lower (e : Entity) :
  fold_right (fun c acc => value c + acc) 0 (hand e) <= get_hand_value e.
Proof.
  rewrite get_hand_value_unfold, promote_aces_closed. lia.
Qed.

End ScoreFacts.
Import ScoreFacts.

(** C1 (the code departs from it): the dealer is built with [limit = 17]
    and [get_hand_value] promotes an ace only while the total stays at or
    below [limit], so the dealer's hand is scored under a ceiling of 17,
    not 21: an ace and a nine count 10 for the dealer, where the ceiling
    of 21 gives 20, and an ace and a king count 11 instead of 21. *)
Theorem dealer_scored_under_17 :
  (forall s1 s2, get_hand_value (Dealer [ace s1; number 9 s2]) = 10)
  /\ (forall s1 s2, score [ace s1; number 9 s2] 17 = 10)
  /\ (forall s1 s2, score [ace s1; number 9 s2] 21 = 20)
  /\ (forall s1 s2, get_hand_value (Dealer [ace s1; king s2]) = 11).
Proof.
  repeat split; reflexivity.
Qed.

(** C3: a hand of cards of the deck, held by a player (ceiling 21), is
    worth the sum of the base values of its cards (face value for 2-10,
    10 for J, Q, K, 1 for an ace) plus 10 for each ace whose promotion
    keeps the running total at or below 21; so [A,A] is worth 12, [A,9]
    20, [A,A,9] 21, [K,A] 21 and [K,Q,A] 21. *)
Theorem player_hand_value (h : list Card) (m : Z) (n : string) :
  Forall standard h ->
  get_hand_value (NewPlayer h m n) = score h 21
  /\ score h 21 = base_total h + 10 * promoted h 21
  /\ (forall s1 s2, get_hand_value (NewPlayer [ace s1; ace s2] m n) = 12)
  /\ (forall s1 s2,
        get_hand_value (NewPlayer [ace s1; number 9 s2] m n) = 20)
  /\ (forall s1 s2 s3,
        get_hand_value (NewPlayer [ace s1; ace s2; number 9 s3] m n) = 21)
  /\ (forall s1 s2, get_hand_value (NewPlayer [king s1; ace s2] m n) = 21)
  /\ (forall s1 s2 s3,
        get_hand_value (NewPlayer [king s1; queen s2; ace s3] m n) = 21).
Proof.
  intros Hs.
  split; [apply (get_hand_value_score (NewPlayer h m n) Hs)|].
  split; [apply score_closed|].
  repeat split; reflexivity.
Qed.

Lemma player_hand_value_witness :
  get_hand_value
    (NewPlayer [ace "♠"; number 7 "♥"; ace "♦"] 50 "chinedu")
  = score [ace "♠"; number 7 "♥"; ace "♦"] 21.
Proof.
  refine (proj1 (player_hand_value
                   [ace "♠"; number 7 "♥"; ace "♦"] 50 "chinedu" _)).
  repeat apply Forall_cons; try apply Forall_nil;
    unfold standard, ordered_cards; cbn;
    repeat (first [left; reflexivity|right]).
Defined.

(** ** The moves on offer *)

Module MovesFacts.

Lemma mem_In (s : string) (l : list string) : mem s l = true <-> In s l.
Proof.
  unfold mem. rewrite existsb_exists. split.
  - intros (x & Hx & Heq). apply String.eqb_eq in Heq. now subst.
  - intros Hin. exists s. split; [assumption|apply String.eqb_refl].
Qed.

(** The thirteen ranks of [make_cards]. *)
Lemma standard_rank (c : Card) :
  standard c ->
  In (rank c)
     [RInt 2; RInt 3; RInt 4; RInt 5; RInt 6; RInt 7; RInt 8; RInt 9;
      RInt 10; RStr "J"; RStr "Q"; RStr "K"; RStr "A"].
Proof.
  unfold standard, ordered_cards. cbn.
  intros H.
  repeat (destruct H as [H|H]; [subst c; cbn; tauto|]).
  contradiction.
Qed.

(** On the cards of the deck, [str(rank)] tells the ranks apart. *)
Lemma str_rank_standard (c0 c1 : Card) :
  standard c0 -> standard c1 ->
  (str_rank (rank c0) = str_rank (rank c1) <-> rank c0 = rank c1).
Proof.
  intros H0 H1. split; [|intros ->; reflexivity].
  apply standard_rank in H0. apply standard_rank in H1.
  cbn in H0, H1.
  repeat (destruct H0 as [H0|H0]; [rewrite <- H0; clear H0|]);
    try contradiction;
    repeat (destruct H1 as [H1|H1]; [rewrite <- H1; clear H1|]);
    try contradiction;
    intros Heq; try reflexivity; vm_compute in Heq; discriminate Heq.
Qed.

Lemma moves_offered_split (g : BlackJack) (e : Who) :
  In "(H)it"%string (moves_offered g e)
  /\ In "(S)tand"%string (moves_offered g e)
  /\ (In "(X)split"%string (moves_offered g e) <->
      (exists c0 c1,
          hand (get_entity e g) = [c0; c1]
          /\ str_rank (rank c0) = str_rank (rank c1))
      /\ e = Main
      /\ split g = false
      /\ money (get_entity e g) <= start_amount g - money (get_entity e g)).
Proof.
  unfold moves_offered.
  split; [cbn; tauto|]. split; [cbn; tauto|].
  set (p := get_entity e g).
  destruct (hand p) as [|c0 [|c1 [|c2 r]]] eqn:Hh; cbn [List.length Nat.eqb andb].
  - cbn. split.
    + intros [H|[H|[]]]; discriminate H.
    + intros ((c0 & c1 & Hc & _) & _). discriminate Hc.
  - cbn. split.
    + intros [H|[H|[]]]; discriminate H.
    + intros ((c0' & c1 & Hc & _) & _). discriminate Hc.
  - destruct (Z.geb_spec (start_amount g - money p) (money p)) as [Hm|Hm];
      cbn [andb];
      [|cbn; split;
        [intros [H|[H|[]]]; discriminate H
        |intros (_ & _ & _ & Hle); lia]].
    destruct e; cbn [player_or_split andb];
      [|cbn; split;
        [intros [H|[H|[]]]; discriminate H
        |intros (_ & He & _); discriminate He]].
    destruct (split g); cbn [negb];
      [cbn; split;
        [intros [H|[H|[]]]; discriminate H
        |intros (_ & _ & Hs & _); discriminate Hs]|].
    destruct (String.eqb_spec (str_rank (rank c0)) (str_rank (rank c1)))
      as [Heq|Hne].
    + split.
      * intros _. split; [exists c0, c1; split; [reflexivity|exact Heq]|].
        repeat split; lia.
      * intros _. cbn. tauto.
    + split.
      * cbn. intros [H|[H|[H|[]]]]; discriminate H.
      * intros ((c0' & c1' & Hc & Hr) & _).
        injection Hc as <- <-. contradiction.
  - cbn. split.
    + intros [H|[H|[]]]; discriminate H.
    + intros ((c0' & c1' & Hc & _) & _). discriminate Hc.
Qed.

(** On a hand of cards of the deck the two ranks that print alike are
    the same rank. *)
Lemma same_rank_standard (h : list Card) :
  Forall standard h ->
  (exists c0 c1, h = [c0; c1] /\ str_rank (rank c0) = str_rank (rank c1))
  <-> (exists c0 c1, h = [c0; c1] /\ rank c0 = rank c1).
Proof.
  intros Hs.
  split; intros (c0 & c1 & Hh & Hr); exists c0, c1; (split; [exact Hh|]);
    subst h;
    pose proof (Forall_inv Hs) as H0;
    pose proof (Forall_inv (Forall_inv_tail Hs)) as H1;
    now apply (str_rank_standard c0 c1 H0 H1).
Qed.

End MovesFacts.
Import MovesFacts.

(** C4: whatever the state of the round and whichever hand is asked, Hit
    and Stand are on offer; and on a hand of cards of the deck Split is
    on offer exactly when the hand has exactly two cards of equal rank,
    the hand is the main hand, no split has been made in this round, and
    the bankroll less the hand's bet is at least that bet.  The code
    compares [str(rank)] of the two cards, which on the cards of the
    deck is the comparison of the ranks. *)
Theorem split_offered_iff (g : BlackJack) (e : Who) :
  In "(H)it"%string (moves_offered g e)
  /\ In "(S)tand"%string (moves_offered g e)
  /\ (Forall standard (hand (get_entity e g)) ->
      (In "(X)split"%string (moves_offered g e) <->
       (exists c0 c1,
           hand (get_entity e g) = [c0; c1] /\ rank c0 = rank c1)
       /\ e = Main
       /\ split g = false
       /\ money (get_entity e g)
          <= start_amount g - money (get_entity e g))).
Proof.
  destruct (moves_offered_split g e) as (Hh & Hs & Hx).
  split; [exact Hh|]. split; [exact Hs|].
  intros Hstd. rewrite Hx.
  now rewrite (same_rank_standard _ Hstd).
Qed.

(** ** Running the methods *)

Module RunFacts.

Lemma add_out_nil (w : World) : add_out w [] = w.
Proof. destruct w; unfold add_out; cbn. now rewrite app_nil_r. Qed.

Lemma add_out_app (w : World) (a b : list Message) :
  add_out (add_out w a) b = add_out w (a ++ b).
Proof. unfold add_out; cbn. now rewrite app_assoc. Qed.

Lemma pop_last_app {A} (d : list A) (c : A) : pop_last (d ++ [c]) = Some (c, d).
Proof.
  induction d as [|x d IH]; cbn.
  - reflexivity.
  - rewrite IH. reflexivity.
Qed.

Lemma pop_last_None {A} (l : list A) : pop_last l = None -> l = [].
Proof.
  destruct l as [|x r]; [reflexivity|].
  cbn. destruct (pop_last r) as [[y r']|]; discriminate.
Qed.

Lemma pop_last_Some {A} (l d : list A) (c : A) :
  pop_last l = Some (c, d) -> l = d ++ [c].
Proof.
  revert d c. induction l as [|x r IH]; intros d c; cbn.
  - discriminate.
  - destruct (pop_last r) as [[y r']|] eqn:E.
    + intros [= <- <-]. cbn. f_equal. now apply IH.
    + intros [= <- <-]. apply pop_last_None in E. now subst.
Qed.

Section Run.

Context {py : Builtins}.

Lemma print_total_run (e : Entity) (b : bool) (w : World) :
  exists m, print_total e b w = (Val tt, add_out w [m]).
Proof.
  unfold print_total, bind, get.
  destruct (String.eqb (str_lower (name e)) "dealer").
  - destruct (negb b); eexists; reflexivity.
  - eexists; reflexivity.
Qed.

Lemma display_like_ret : display_like (fun _ => True) (ret tt).
Proof.
  intros w. exists []. left. split; [exact I|].
  unfold ret. now rewrite add_out_nil.
Qed.

Lemma display_like_bind (ok1 ok2 : BlackJack -> Prop) (m1 m2 : M unit) :
  display_like ok1 m1 -> display_like ok2 m2 ->
  display_like (fun g => ok1 g /\ ok2 g) (m1 ;; m2).
Proof.
  intros H1 H2 w. unfold bind.
  destruct (H1 w) as [o1 [[Hok1 ->]|[Hno1 ->]]].
  - destruct (H2 (add_out w o1)) as [o2 [[Hok2 ->]|[Hno2 ->]]];
      exists (o1 ++ o2); rewrite add_out_app.
    + left. split; [split; assumption|reflexivity].
    + right. split; [intros [_ Hk]; exact (Hno2 Hk)|reflexivity].
  - exists o1. right. split; [intros [Hk _]; exact (Hno1 Hk)|reflexivity].
Qed.

Lemma display_like_weaken (ok ok' : BlackJack -> Prop) (m : M unit) :
  (forall g, ok g <-> ok' g) -> display_like ok m -> display_like ok' m.
Proof.
  intros Hiff H w. destruct (H w) as [o [[Hok E]|[Hno E]]]; exists o.
  - left. split; [now apply Hiff|exact E].
  - right. split; [intros Hk; apply Hno; now apply Hiff|exact E].
Qed.

Lemma show_block_like (f : BlackJack -> Entity) (b hide : bool) :
  display_like (fun g => hand (f g) <> [])
    (g <- get ;;
     print_total (f g) b ;;
     s <- show_all_cards (f g) hide ;;
     print s).
Proof.
  intros w. unfold bind, get.
  destruct (print_total_run (f (self w)) b w) as [m Hm].
  rewrite Hm. unfold show_all_cards.
  destruct (hand (f (self w))) as [|c h] eqn:Hh.
  - exists [m]. right. split; [intros Hk; now apply Hk|reflexivity].
  - exists [m; Shown (c :: h) hide]. left. split; [discriminate|].
    unfold ret, print, add_out. cbn. rewrite <- app_assoc. reflexivity.
Qed.

Lemma split_block_like :
  display_like (fun g => split g = true -> hand (player_split g) <> [])
    (g <- get ;;
     (if split g then print_total (player_split g) false else ret tt) ;;
     (if split g
      then s <- show_all_cards (player_split g) false ;; print s
      else ret tt)).
Proof.
  intros w. unfold bind, get.
  destruct (split (self w)) eqn:Hs.
  - destruct (print_total_run (player_split (self w)) false w) as [m Hm].
    rewrite Hm. unfold show_all_cards.
    destruct (hand (player_split (self w))) as [|c h] eqn:Hh.
    + exists [m]. right. split; [intros Hk; now apply Hk|reflexivity].
    + exists [m; Shown (c :: h) false]. left. split; [discriminate|].
      unfold ret, print, add_out. cbn. rewrite <- app_assoc. reflexivity.
  - exists []. left. split; [discriminate|].
    unfold ret. now rewrite add_out_nil.
Qed.

Lemma display_like_if (flag : bool) (ok : BlackJack -> Prop) (m : M unit) :
  display_like ok m ->
  display_like (fun g => flag = true -> ok g) (if flag then m else ret tt).
Proof.
  intros H. destruct flag.
  - apply (display_like_weaken ok); [|exact H].
    intros g. split; [intros Hk _; exact Hk|intros Hk; now apply Hk].
  - apply (display_like_weaken (fun _ => True)); [|exact display_like_ret].
    intros g. split; [discriminate|trivial].
Qed.

Lemma display_scores_like (a b c d : bool) :
  display_like (shown_ok b c d) (display_scores a b c d).
Proof.
  unfold display_scores, shown_ok.
  apply display_like_bind;
    [apply display_like_if, (show_block_like dealer)|].
  apply display_like_bind;
    [apply display_like_if, (show_block_like (fun g => base (player g)))|].
  apply display_like_if, split_block_like.
Qed.

Lemma deck_pop_run (w : World) :
  deck_pop w =
  match pop_last (deck (self w)) with
  | None => (Raise IndexError, w)
  | Some (c, d) => (Val c, with_self w (set_deck d (self w)))
  end.
Proof.
  unfold deck_pop, bind, get.
  destruct (pop_last (deck (self w))) as [[c d]|]; reflexivity.
Qed.

Lemma input_run (p : string) (w : World) :
  input p w =
  match stdin w with
  | [] => (Raise EOFError, add_out w [Prompt p])
  | l :: rest => (Val l, with_stdin (add_out w [Prompt p]) rest)
  end.
Proof.
  destruct w as [g i o r u].
  unfold input, bind, print, read_line, add_out, with_stdin. cbn.
  destruct i; reflexivity.
Qed.

Lemma with_hand_same (e : Entity) : with_hand e (hand e) = e.
Proof. destruct e; reflexivity. Qed.

Lemma dealer_score_after_nil (g : BlackJack) :
  dealer_score_after g [] = get_hand_value (dealer g).
Proof.
  unfold dealer_score_after. now rewrite app_nil_r, with_hand_same.
Qed.

Lemma dealer_drew_nil (g : BlackJack) : dealer_drew g (deck g) [] = g.
Proof.
  unfold dealer_drew. rewrite app_nil_r, with_hand_same.
  destruct g; reflexivity.
Qed.

Lemma dealer_drew_cons (g : BlackJack) (d rest : list Card) (c : Card)
    (drawn : list Card) :
  dealer_drew
    (set_dealer (with_hand (dealer g) (hand (dealer g) ++ [c])) (set_deck d g))
    rest drawn
  = dealer_drew g rest (c :: drawn).
Proof.
  unfold dealer_drew, set_dealer, set_deck, with_hand. cbn.
  now rewrite <- app_assoc.
Qed.

Lemma dealer_score_after_cons (g : BlackJack) (d : list Card) (c : Card)
    (cards : list Card) :
  dealer_score_after
    (set_dealer (with_hand (dealer g) (hand (dealer g) ++ [c])) (set_deck d g))
    cards
  = dealer_score_after g (c :: cards).
Proof.
  unfold dealer_score_after, set_dealer, set_deck, with_hand. cbn.
  now rewrite <- app_assoc.
Qed.

Lemma dealer_play_loop_spec (fuel : nat) :
  forall (w w' : World) (r : Res unit),
    (List.length (deck (self w)) < fuel)%nat ->
    limit (dealer (self w)) = 17 ->
    dealer_play_loop fuel w = (r, w') ->
    exists rest drawn consumed,
      deck (self w) = rest ++ rev drawn
      /\ self w' = dealer_drew (self w) rest drawn
      /\ stdin w = consumed ++ stdin w'
      /\ (forall k, (k < List.length drawn)%nat ->
                    dealer_score_after (self w) (firstn k drawn) < 17)
      /\ (r = Val tt ->
          17 <= dealer_score_after (self w) drawn
          /\ List.length consumed = pauses (self w) drawn)
      /\ (r = Raise IndexError ->
          deck (self w') = [] \/ ~ shown_ok true true true (self w'))
      /\ (r = Raise EOFError -> stdin w' = [])
      /\ r <> NoFuel /\ r <> Raise SystemExit.
Proof.
  induction fuel as [|fuel IH]; intros w w' r Hlen Hlim Hrun.
  - inversion Hlen.
  - cbn [dealer_play_loop] in Hrun.
    unfold bind at 1 in Hrun. unfold get at 1 in Hrun.
    destruct (Z.ltb_spec (get_hand_value (dealer (self w))) 17) as [Hlt|Hge].
    2: { injection Hrun as <- <-.
         exists (deck (self w)), [], [].
         rewrite dealer_drew_nil, dealer_score_after_nil.
         cbn [rev firstn List.length pauses]. rewrite app_nil_r.
         repeat split; try (intros; congruence); try lia. }
    unfold bind at 1 in Hrun. unfold print at 1 in Hrun.
    cbv beta iota in Hrun.
    unfold bind at 1 in Hrun. rewrite deck_pop_run in Hrun.
    cbn [self add_out] in Hrun.
    destruct (pop_last (deck (self w))) as [[c d]|] eqn:Hpop.
    2: { injection Hrun as <- <-.
         apply pop_last_None in Hpop.
         exists [], [], []. cbn [self add_out stdin].
         replace (dealer_drew (self w) [] []) with (self w)
           by (rewrite <- (dealer_drew_nil (self w)) at 1; now rewrite Hpop).
         cbn [rev firstn List.length pauses app].
         repeat split; try (intros; congruence); try lia;
           try exact Hpop; intros _; left; exact Hpop. }
    apply pop_last_Some in Hpop.
    unfold bind at 1 in Hrun. unfold modify at 1 in Hrun.
    cbv beta iota in Hrun. cbn [self with_self stdin stdout rng rng_used] in Hrun.
    unfold bind at 1 in Hrun.
    match type of Hrun with
    | context [display_scores _ _ _ _ ?W] => set (W1 := W) in *
    end.
    assert (Hg1 : self W1 = dealer_drew (self w) d [c]) by reflexivity.
    assert (Hs1 : get_hand_value (dealer (self W1))
                  = dealer_score_after (self w) [c]) by reflexivity.
    assert (Hl1 : limit (dealer (self W1)) = 17) by exact Hlim.
    assert (Hfirst : forall k, (k < 1)%nat ->
                dealer_score_after (self w) (firstn k [c]) < 17).
    { intros k Hk. replace k with 0%nat by lia.
      cbn [firstn]. now rewrite dealer_score_after_nil. }
    assert (Hdeck : deck (self w) = d ++ rev [c]) by exact Hpop.
    destruct (display_scores_like false true true true W1)
      as [out [[Hok E]|[Hno E]]]; rewrite E in Hrun; clear E.
    2: { injection Hrun as <- <-.
         exists d, [c], []. cbn [self add_out stdin app].
         repeat split; try (intros; congruence); try assumption;
           intros _; right; exact Hno. }
    unfold bind at 1 in Hrun. unfold get at 1 in Hrun.
    cbn [self add_out] in Hrun.
    rewrite Hl1, Hs1 in Hrun.
    destruct (Z.gtb_spec (dealer_score_after (self w) [c]) (17 + 4))
      as [Hbust|Hlive].
    { injection Hrun as <- <-.
      exists d, [c], []. cbn [self add_out stdin app].
      repeat split; try (intros; congruence); try assumption; try lia.
      unfold pauses. cbn [List.length].
      destruct (Z.gtb_spec (dealer_score_after (self w) [c]) 21); lia. }
    unfold bind at 1 in Hrun. rewrite input_run in Hrun.
    cbn [stdin add_out] in Hrun.
    destruct (stdin W1) as [|l lines] eqn:Hin.
    { injection Hrun as <- <-.
      exists d, [c], []. cbn [self add_out stdin app].
      repeat split; try (intros; congruence); try assumption. }
    unfold bind at 1 in Hrun. unfold print at 1 in Hrun.
    cbv beta iota in Hrun.
    apply IH in Hrun; [| |exact Hl1].
    2: { cbn [self with_stdin add_out]. rewrite Hg1.
         unfold dealer_drew. cbn [deck set_dealer set_deck].
         rewrite Hpop, length_app in Hlen. cbn in Hlen. lia. }
    cbn [self with_stdin add_out stdin] in Hrun.
    destruct Hrun as (rest & drawn & consumed & Hd & Hself & Hcons & Hbelow
                      & Hval & Hidx & Heof & Hnf & Hne).
    exists rest, (c :: drawn), (l :: consumed).
    rewrite Hg1 in Hd, Hself, Hbelow, Hval.
    unfold dealer_drew at 1 in Hd. cbn [deck set_dealer set_deck] in Hd.
    split; [rewrite Hpop, Hd; cbn [rev]; now rewrite app_assoc|].
    split; [rewrite Hself; apply dealer_drew_cons|].
    split; [change (stdin w) with (stdin W1); rewrite Hin, Hcons; reflexivity|].
    split.
    { intros [|k] Hk.
      - cbn [firstn]. now rewrite dealer_score_after_nil.
      - cbn [firstn]. rewrite <- dealer_score_after_cons with (d := d).
        apply Hbelow. cbn [List.length] in Hk. lia. }
    split; [|repeat split; assumption].
    intros Hr. destruct (Hval Hr) as [H17 Hp].
    unfold dealer_drew in H17. rewrite dealer_score_after_cons in H17.
    split; [exact H17|].
    cbn [List.length]. rewrite Hp.
    unfold dealer_drew. unfold pauses.
    destruct drawn as [|x xs].
    + destruct (Z.gtb_spec (dealer_score_after (self w) [c]) 21); cbn; lia.
    + rewrite dealer_score_after_cons.
      destruct (Z.gtb_spec (dealer_score_after (self w) (c :: x :: xs)) 21);
        cbn [List.length]; lia.
Qed.
Lemma after_out (w : World) (g : BlackJack) (lines : list string)
    (o1 o2 : list Message) :
  add_out (after w g lines o1) o2 = after w g lines (o1 ++ o2).
Proof. unfold add_out, after. cbn. now rewrite app_assoc. Qed.

Lemma entity_hit_run (e : Who) (w : World) (c : Card) (d : list Card) :
  deck (self w) = d ++ [c] ->
  shown_ok true true true (dealt e c d (self w)) ->
  exists out,
    entity_hit e w = (Val tt, after w (dealt e c d (self w)) (stdin w) out).
Proof.
  intros Hd Hok. unfold entity_hit.
  unfold bind at 1. rewrite deck_pop_run, Hd, pop_last_app.
  unfold bind at 1. unfold get at 1.
  unfold bind at 1. unfold print at 1. cbv beta iota.
  unfold bind at 1. unfold print at 1. cbv beta iota.
  unfold bind at 1. unfold hand_append, modify. cbv beta iota.
  cbn [self with_self stdin stdout rng rng_used].
  match goal with
  | |- context [display_scores _ _ _ _ ?W] =>
      destruct (display_scores_like false true true true W)
        as [out [[_ E]|[Hno _]]]; [rewrite E|exfalso; apply Hno; exact Hok]
  end.
  eexists. unfold add_out, after. cbn [self stdin stdout rng rng_used].
  rewrite <- !app_assoc. reflexivity.
Qed.

Lemma entity_double_down_run (e : Who) (w : World) (c : Card)
    (d : list Card) :
  deck (self w) = d ++ [c] ->
  shown_ok true true true (doubled e c d (self w)) ->
  exists out,
    entity_double_down e w
    = (Val tt, after w (doubled e c d (self w)) (stdin w) out).
Proof.
  intros Hd Hok. unfold entity_double_down.
  unfold bind at 1. unfold get at 1.
  unfold bind at 1. unfold print at 1. cbv beta iota.
  unfold bind at 1. unfold print at 1. cbv beta iota.
  unfold bind at 1. unfold modify at 1. cbv beta iota.
  cbn [self with_self stdin stdout rng rng_used].
  unfold bind at 1.
  match goal with
  | |- context [entity_hit e ?W] =>
      destruct (entity_hit_run e W c d) as [out E];
        [destruct e; exact Hd|exact Hok|rewrite E; clear E]
  end.
  unfold bind at 1. unfold get at 1. cbn [self after].
  match goal with
  | |- context [if ?b then _ else _] => destruct b
  end.
  - eexists. unfold ret, after. cbn [self stdin stdout rng rng_used].
    rewrite <- !app_assoc. reflexivity.
  - eexists. unfold entity_stand, bind, get, print, after.
    cbn [self stdin stdout rng rng_used].
    rewrite <- !app_assoc. reflexivity.
Qed.

Lemma choose_double_down (w : World) (l : string) (lines : list string) :
  stdin w = l :: lines ->
  str_upper (str_strip l) = "D"%string ->
  mem "(D)ouble down" (moves_offered (self w) Main) = true ->
  exists out,
    entity_possible_moves Main w
    = (Val DoubleDown, after w (self w) lines out).
Proof.
  intros Hin Hl Hm. unfold entity_possible_moves.
  unfold bind at 1. unfold get at 1. rewrite Hin.
  cbn [List.length entity_possible_moves_loop].
  unfold bind at 1. rewrite input_run, Hin, Hl, Hm.
  eexists. reflexivity.
Qed.

Lemma choose_split (w : World) (l : string) (lines : list string) :
  stdin w = l :: lines ->
  str_upper (str_strip l) = "X"%string ->
  mem "(X)split" (moves_offered (self w) Main) = true ->
  exists out,
    entity_possible_moves Main w = (Val Split, after w (self w) lines out).
Proof.
  intros Hin Hl Hm. unfold entity_possible_moves.
  unfold bind at 1. unfold get at 1. rewrite Hin.
  cbn [List.length entity_possible_moves_loop].
  unfold bind at 1. rewrite input_run, Hin, Hl, Hm.
  eexists. reflexivity.
Qed.

Lemma entity_split_run (w : World) (a b c1 c2 : Card) (d : list Card) :
  hand (player (self w)) = [a; b] ->
  hand (player_split (self w)) = [] ->
  deck (self w) = d ++ [c2; c1] ->
  entity_split w
  = (Val tt,
     after w (split_hands a b c1 c2 d (self w)) (stdin w)
       [DecidedToSplit (name (player (self w)));
        HasBet (name (player_split (self w))) (money (player (self w)));
        Text EmptyString]).
Proof.
  intros Hp Hs Hd.
  assert (Hd' : deck (self w) = (d ++ [c2]) ++ [c1])
    by (rewrite Hd, <- app_assoc; reflexivity).
  unfold entity_split.
  unfold bind at 1. unfold modify at 1. cbv beta iota.
  unfold bind at 1. unfold get at 1.
  unfold bind at 1. unfold print at 1. cbv beta iota.
  cbn [self set_split player stdin stdout rng rng_used].
  rewrite Hp. cbn [pop_last].
  unfold bind at 1. unfold modify at 1. cbv beta iota.
  cbn [self stdin stdout rng rng_used].
  unfold bind at 1. rewrite deck_pop_run.
  cbn [self set_entity set_split deck]. rewrite Hd', pop_last_app.
  unfold bind at 1. unfold modify at 1. cbv beta iota.
  unfold bind at 1. unfold modify at 1. cbv beta iota.
  unfold bind at 1. unfold get at 1.
  unfold bind at 1. unfold print at 1. cbv beta iota.
  unfold bind at 1. rewrite deck_pop_run.
  cbn [self with_self set_entity set_deck deck player player_split
       start_amount player_name dealer split stdin stdout rng rng_used].
  rewrite pop_last_app.
  unfold bind at 1. unfold hand_append, modify. cbv beta iota.
  unfold print, after, split_hands, player_with_hand, player_with_money,
    with_hand.
  cbn [self with_self set_entity get_entity set_deck deck player
       player_split start_amount player_name dealer split stdin stdout
       rng rng_used hand base limit name money].
  unfold set_split.
  cbn [start_amount player_name dealer player_split split].
  rewrite Hs. cbn [app]. rewrite <- !app_assoc. reflexivity.
Qed.

Lemma moves_after_split (a b c1 c2 : Card) (d : list Card) (g : BlackJack)
    (e : Who) :
  moves_offered (split_hands a b c1 c2 d g) e = ["(H)it"; "(S)tand"]%string.
Proof.
  unfold moves_offered. cbn [split split_hands negb].
  now rewrite andb_false_r.
Qed.

Lemma set_start_amount_same (g : BlackJack) :
  set_start_amount (start_amount g + 0) g = g.
Proof. rewrite Z.add_0_r. destruct g; reflexivity. Qed.

Lemma bind_Val_inv {A B} (m : M A) (f : A -> M B) (w w' : World) (b : B) :
  bind m f w = (Val b, w') ->
  exists a w1, m w = (Val a, w1) /\ f a w1 = (Val b, w').
Proof.
  unfold bind. destruct (m w) as [[a|e|] w1]; intros E; try discriminate E.
  exists a, w1. split; [reflexivity|exact E].
Qed.

Lemma deal_fresh_round (amount : Z) (pname : string) (w w' : World) :
  deal amount pname w = (Val tt, w') ->
  fresh_round (self w')
  /\ start_amount (self w') = amount
  /\ player_name (self w') = pname.
Proof.
  unfold deal. intros E.
  apply bind_Val_inv in E. destruct E as (cards & w0 & _ & E).
  apply bind_Val_inv in E. destruct E as ([] & w1 & _ & E).
  apply bind_Val_inv in E. destruct E as (p1 & w2 & _ & E).
  apply bind_Val_inv in E. destruct E as (p2 & w3 & _ & E).
  apply bind_Val_inv in E. destruct E as (d1 & w4 & _ & E).
  apply bind_Val_inv in E. destruct E as (d2 & w5 & _ & E).
  unfold modify in E. injection E as <-.
  cbn [self]. unfold fresh_round.
  cbn [player dealer player_split split start_amount player_name].
  repeat split; eauto.
Qed.

(** A round starts fresh: the second hand is empty and no split has
    been made. *)
Lemma reset_fresh_round (w w' : World) :
  reset w = (Val tt, w') ->
  fresh_round (self w')
  /\ start_amount (self w') = start_amount (self w)
  /\ player_name (self w') = player_name (self w).
Proof.
  unfold reset. intros E.
  apply bind_Val_inv in E. destruct E as (g & w0 & Hg & E).
  injection Hg as <- <-.
  exact (deal_fresh_round _ _ _ _ E).
Qed.

End Run.

End RunFacts.
Import RunFacts.

(** ** Fuel: the loops end on what is typed and dealt *)

Module Totality.

Lemma reads_some_reads {A} (m : M A) : reads_some m -> reads m.
Proof. intros H w r w' E. destruct (H w r w' E) as (? & ? & _). now split. Qed.

Lemma reads_ret {A} (a : A) : reads (ret a).
Proof. intros w r w' [= <- <-]. split; [discriminate|lia]. Qed.

Lemma reads_raise {A} (e : Exn) : reads (@raise A e).
Proof. intros w r w' [= <- <-]. split; [discriminate|lia]. Qed.

Lemma reads_get : reads get.
Proof. intros w r w' [= <- <-]. split; [discriminate|lia]. Qed.

Lemma reads_print (m : Message) : reads (print m).
Proof. intros w r w' [= <- <-]. split; [discriminate|cbn; lia]. Qed.

Lemma reads_modify (f : BlackJack -> BlackJack) : reads (modify f).
Proof. intros w r w' [= <- <-]. split; [discriminate|cbn; lia]. Qed.

Lemma reads_randbelow (n : nat) : reads (randbelow n).
Proof. intros w r w' [= <- <-]. split; [discriminate|cbn; lia]. Qed.

Lemma reads_bind {A B} (m : M A) (f : A -> M B) :
  reads m -> (forall a, reads (f a)) -> reads (bind m f).
Proof.
  intros Hm Hf w r w' E. unfold bind in E.
  destruct (m w) as [[a|e|] w1] eqn:Em.
  - destruct (Hm _ _ _ Em) as [_ H1]. destruct (Hf a _ _ _ E) as [Hr H2].
    split; [exact Hr|lia].
  - injection E as <- <-. destruct (Hm _ _ _ Em) as [_ Hle].
    split; [discriminate|exact Hle].
  - destruct (Hm _ _ _ Em) as [Hr _]. now contradiction Hr.
Qed.

Lemma reads_some_bind_l {A B} (m : M A) (f : A -> M B) :
  reads_some m -> (forall a, reads (f a)) -> reads_some (bind m f).
Proof.
  intros Hm Hf w r w' E. unfold bind in E.
  destruct (m w) as [[a|e|] w1] eqn:Em.
  - destruct (Hm _ _ _ Em) as (_ & H1 & Hlt).
    specialize (Hlt a eq_refl).
    destruct (Hf a _ _ _ E) as [Hr H2].
    split; [exact Hr|]. split; [lia|intros; lia].
  - injection E as <- <-. destruct (Hm _ _ _ Em) as (_ & Hle & _).
    split; [discriminate|]. split; [exact Hle|discriminate].
  - destruct (Hm _ _ _ Em) as [Hr _]. now contradiction Hr.
Qed.

Lemma reads_some_bind_r {A B} (m : M A) (f : A -> M B) :
  reads m -> (forall a, reads_some (f a)) -> reads_some (bind m f).
Proof.
  intros Hm Hf w r w' E. unfold bind in E.
  destruct (m w) as [[a|e|] w1] eqn:Em.
  - destruct (Hm _ _ _ Em) as [_ H1].
    destruct (Hf a _ _ _ E) as (Hr & H2 & Hlt).
    split; [exact Hr|]. split; [lia|].
    intros b Hb. specialize (Hlt b Hb). lia.
  - injection E as <- <-. destruct (Hm _ _ _ Em) as (_ & Hle).
    split; [discriminate|]. split; [exact Hle|discriminate].
  - destruct (Hm _ _ _ Em) as [Hr _]. now contradiction Hr.
Qed.

Lemma reads_some_input (p : string) : reads_some (input p).
Proof.
  intros w r w' E. rewrite input_run in E.
  destruct (stdin w) as [|l rest] eqn:Hin; injection E as <- <-.
  - split; [discriminate|]. split; [cbn; rewrite Hin; cbn; lia|discriminate].
  - split; [discriminate|]. split; cbn; intros; lia.
Qed.

Lemma reads_deck_pop : reads deck_pop.
Proof.
  intros w r w' E. rewrite deck_pop_run in E.
  destruct (pop_last (deck (self w))) as [[c d]|]; injection E as <- <-;
    (split; [discriminate|cbn; lia]).
Qed.

Lemma reads_display (ok : BlackJack -> Prop) (m : M unit) :
  display_like ok m -> reads m.
Proof.
  intros H w r w' E. destruct (H w) as [out [[_ E']|[_ E']]];
    rewrite E' in E; injection E as <- <-; (split; [discriminate|cbn; lia]).
Qed.

Lemma reads_reads_w {A} (n : nat) (m : M A) : reads m -> reads_w n m.
Proof. intros H w r w' _ E. exact (H w r w' E). Qed.

Lemma reads_some_reads_some_w {A} (n : nat) (m : M A) :
  reads_some m -> reads_some_w n m.
Proof. intros H w r w' _ E. exact (H w r w' E). Qed.

Lemma reads_some_w_reads_w {A} (n : nat) (m : M A) :
  reads_some_w n m -> reads_w n m.
Proof.
  intros H w r w' Hn E. destruct (H w r w' Hn E) as (? & ? & _). now split.
Qed.

Lemma reads_w_bind {A B} (n : nat) (m : M A) (f : A -> M B) :
  reads_w n m -> (forall a, reads_w n (f a)) -> reads_w n (bind m f).
Proof.
  intros Hm Hf w r w' Hn E. unfold bind in E.
  destruct (m w) as [[a|e|] w1] eqn:Em.
  - destruct (Hm _ _ _ Hn Em) as [_ H1].
    destruct (Hf a w1 r w' ltac:(lia) E) as [Hr H2].
    split; [exact Hr|lia].
  - injection E as <- <-. destruct (Hm _ _ _ Hn Em) as [_ Hle].
    split; [discriminate|exact Hle].
  - destruct (Hm _ _ _ Hn Em) as [Hr _]. now contradiction Hr.
Qed.

(** Once a line has been read, one line less is left for what follows. *)
Lemma reads_w_bind_some {A B} (n : nat) (m : M A) (f : A -> M B) :
  reads_some_w n m ->
  (forall a n', n = S n' -> reads_w n' (f a)) ->
  reads_some_w n (bind m f).
Proof.
  intros Hm Hf w r w' Hn E. unfold bind in E.
  destruct (m w) as [[a|e|] w1] eqn:Em.
  - destruct (Hm _ _ _ Hn Em) as (_ & H1 & Hlt).
    specialize (Hlt a eq_refl).
    destruct n as [|n']; [lia|].
    destruct (Hf a n' eq_refl w1 r w' ltac:(lia) E) as [Hr H2].
    split; [exact Hr|]. split; [lia|intros; lia].
  - injection E as <- <-. destruct (Hm _ _ _ Hn Em) as (_ & Hle & _).
    split; [discriminate|]. split; [exact Hle|discriminate].
  - destruct (Hm _ _ _ Hn Em) as [Hr _]. now contradiction Hr.
Qed.

Lemma reads_some_w_bind_r {A B} (n : nat) (m : M A) (f : A -> M B) :
  reads_w n m -> (forall a, reads_some_w n (f a)) ->
  reads_some_w n (bind m f).
Proof.
  intros Hm Hf w r w' Hn E. unfold bind in E.
  destruct (m w) as [[a|e|] w1] eqn:Em.
  - destruct (Hm _ _ _ Hn Em) as [_ H1].
    destruct (Hf a w1 r w' ltac:(lia) E) as (Hr & H2 & Hlt).
    split; [exact Hr|]. split; [lia|].
    intros b Hb. specialize (Hlt b Hb). lia.
  - injection E as <- <-. destruct (Hm _ _ _ Hn Em) as (_ & Hle).
    split; [discriminate|]. split; [exact Hle|discriminate].
  - destruct (Hm _ _ _ Hn Em) as [Hr _]. now contradiction Hr.
Qed.

Lemma never_returns_bind {A B} (m : M A) (f : A -> M B) :
  (forall a, never_returns (f a)) -> never_returns (bind m f).
Proof.
  intros Hf w r w' b E. unfold bind in E.
  destruct (m w) as [[a|e|] w1].
  - exact (Hf a _ _ _ b E).
  - injection E as <- <-. discriminate.
  - injection E as <- <-. discriminate.
Qed.

Lemma never_returns_raise {A} (e : Exn) : never_returns (@raise A e).
Proof. intros w r w' a [= <- <-]. discriminate. Qed.

Lemma never_returns_out_of_fuel {A} : never_returns (@out_of_fuel A).
Proof. intros w r w' a [= <- <-]. discriminate. Qed.

(** The steps below look at the shape of the computation only, and
    never unfold a method to find one. *)
Ltac reads_step :=
  lazymatch goal with
  | H : ?G |- ?G => exact H
  | |- reads (ret _) => apply reads_ret
  | |- reads (raise _) => apply reads_raise
  | |- reads sys_exit => apply reads_raise
  | |- reads get => apply reads_get
  | |- reads (print _) => apply reads_print
  | |- reads (modify _) => apply reads_modify
  | |- reads deck_pop => apply reads_deck_pop
  | |- reads (randbelow _) => apply reads_randbelow
  | |- reads (input _) => apply reads_some_reads, reads_some_input
  | |- reads (display_scores _ _ _ _) =>
      apply (reads_display _ _ (display_scores_like _ _ _ _))
  | |- reads (bind _ _) => apply reads_bind; [|intros ?]
  | |- reads (if ?b then _ else _) => destruct b
  | |- reads (match ?x with _ => _ end) => destruct x
  end.

Ltac reads_easy := cbv zeta; repeat reads_step.

Ltac has_loop m :=
  lazymatch m with
  | context [entity_bet_loop] => idtac
  | context [entity_possible_moves_loop] => idtac
  | context [entity_play_loop] => idtac
  | context [game_loop] => idtac
  end.

Ltac reads_w_step IH :=
  lazymatch goal with
  | |- reads_w ?n ?m =>
      tryif has_loop m then
        lazymatch type of IH with
        | reads_w n m => exact IH
        | reads_some_w n m => apply reads_some_w_reads_w; exact IH
        | _ =>
            lazymatch m with
            | bind _ _ => apply reads_w_bind; [|intros ?]
            | if ?b then _ else _ => destruct b
            | match ?x with _ => _ end => destruct x
            end
        end
      else (apply reads_reads_w; solve [reads_easy])
  end.

Ltac reads_w_easy IH := cbv zeta; repeat reads_w_step IH.

Section Methods.

Context {py : Builtins}.

Lemma reads_entity_hit (e : Who) : reads (entity_hit e).
Proof. unfold entity_hit, hand_append. reads_easy. Qed.

Lemma reads_entity_stand (e : Who) : reads (entity_stand e).
Proof. unfold entity_stand. reads_easy. Qed.

Lemma reads_entity_double_down (e : Who) : reads (entity_double_down e).
Proof.
  unfold entity_double_down.
  pose proof (reads_entity_hit e). pose proof (reads_entity_stand e).
  reads_easy.
Qed.

Lemma reads_entity_split : reads entity_split.
Proof. unfold entity_split, hand_append. reads_easy. Qed.

Lemma reads_shuffle_from {A} (i : nat) :
  forall x : list A, reads (shuffle_from i x).
Proof.
  induction i as [|i IH]; intros x; cbn [shuffle_from]; reads_easy.
  apply IH.
Qed.

Lemma reads_make_cards : reads make_cards.
Proof. unfold make_cards, shuffle. apply reads_shuffle_from. Qed.

Lemma reads_deal (amount : Z) (pname : string) : reads (deal amount pname).
Proof.
  unfold deal. apply reads_bind; [apply reads_make_cards|intros cards].
  reads_easy.
Qed.

Lemma reads_reset : reads reset.
Proof.
  unfold reset. apply reads_bind; [apply reads_get|intros g].
  apply reads_deal.
Qed.

Lemma entity_bet_loop_reads (e : Who) (amt : Z) (k : nat) :
  reads_some_w k (entity_bet_loop (S k) e amt).
Proof.
  induction k as [|k IH];
    [|remember (S k) as k' eqn:Hk]; cbn [entity_bet_loop]; [|subst k'];
    (apply reads_some_w_bind_r; [apply reads_reads_w, reads_print|intros _]);
    (apply reads_w_bind_some;
     [apply reads_some_reads_some_w, reads_some_input|intros line n' Hn]).
  - discriminate Hn.
  - injection Hn as <-. reads_w_easy IH.
Qed.

Lemma reads_entity_bet (e : Who) (amt : Z) : reads_some (entity_bet e amt).
Proof.
  intros w r w' E.
  exact (entity_bet_loop_reads e amt (List.length (stdin w)) w r w'
           (le_n _) E).
Qed.

Lemma entity_possible_moves_loop_reads (moves : list string)
    (prompt : string) (k : nat) :
  reads_some_w k (entity_possible_moves_loop (S k) moves prompt).
Proof.
  induction k as [|k IH];
    [|remember (S k) as k' eqn:Hk]; cbn [entity_possible_moves_loop];
    [|subst k'];
    (apply reads_w_bind_some;
     [apply reads_some_reads_some_w, reads_some_input|intros line n' Hn]).
  - discriminate Hn.
  - injection Hn as <-. reads_w_easy IH.
Qed.

Lemma reads_entity_possible_moves (e : Who) :
  reads_some (entity_possible_moves e).
Proof.
  intros w r w' E.
  exact (entity_possible_moves_loop_reads _ _ (List.length (stdin w)) w r w'
           (le_n _) E).
Qed.

Lemma entity_play_loop_reads (e : Who) (k : nat) :
  reads_w k (entity_play_loop (S k) e).
Proof.
  pose proof (reads_entity_hit e) as Hhit.
  pose proof (reads_entity_stand e) as Hstand.
  pose proof (reads_entity_double_down e) as Hdouble.
  pose proof reads_entity_split as Hsplit.
  induction k as [|k IH];
    [|remember (S k) as k' eqn:Hk]; cbn [entity_play_loop]; [|subst k'];
    (apply reads_w_bind; [apply reads_reads_w, reads_get|intros g]);
    (destruct (get_hand_value (get_entity e g) >? limit (get_entity e g));
     [apply reads_reads_w, reads_ret|]);
    (apply reads_w_bind; [apply reads_reads_w, reads_print|intros _]);
    apply reads_some_w_reads_w;
    (apply reads_w_bind_some;
     [apply reads_some_reads_some_w, reads_entity_possible_moves
     |intros move n' Hn]).
  - discriminate Hn.
  - injection Hn as <-. reads_w_easy IH.
Qed.

Lemma reads_entity_play (e : Who) : reads (entity_play e).
Proof.
  unfold entity_play. apply reads_bind; [apply reads_get|intros g].
  destruct (negb (player_or_split e) && negb (split g)); [apply reads_ret|].
  intros w r w' E.
  exact (entity_play_loop_reads e (List.length (stdin w)) w r w' (le_n _) E).
Qed.

Lemma dealer_play_loop_reads (fuel : nat) :
  forall w r w',
    (List.length (deck (self w)) < fuel)%nat ->
    dealer_play_loop fuel w = (r, w') ->
    r <> NoFuel /\ (List.length (stdin w') <= List.length (stdin w))%nat.
Proof.
  induction fuel as [|fuel IH]; intros w r w' Hlen E; [inversion Hlen|].
  cbn [dealer_play_loop] in E.
  unfold bind at 1 in E. unfold get at 1 in E.
  destruct (get_hand_value (dealer (self w)) <? 17);
    [|injection E as <- <-; split; [discriminate|lia]].
  unfold bind at 1 in E. unfold print at 1 in E. cbv beta iota in E.
  unfold bind at 1 in E. rewrite deck_pop_run in E. cbn [self add_out] in E.
  destruct (pop_last (deck (self w))) as [[c d]|] eqn:Hpop;
    [|injection E as <- <-; split; [discriminate|cbn; lia]].
  apply pop_last_Some in Hpop.
  unfold bind at 1 in E. unfold modify at 1 in E. cbv beta iota in E.
  cbn [self with_self stdin stdout rng rng_used] in E.
  unfold bind at 1 in E.
  match type of E with
  | context [display_scores _ _ _ _ ?W] =>
      destruct (display_scores_like false true true true W)
        as [out [[_ Ed]|[_ Ed]]]; rewrite Ed in E; clear Ed
  end;
    [|injection E as <- <-; split; [discriminate|cbn; lia]].
  unfold bind at 1 in E. unfold get at 1 in E.
  match type of E with
  | context [if ?b then _ else _] => destruct b
  end; [injection E as <- <-; split; [discriminate|cbn; lia]|].
  unfold bind at 1 in E. rewrite input_run in E. cbn [stdin add_out] in E.
  destruct (stdin w) as [|l lines] eqn:Hin;
    [injection E as <- <-; split; [discriminate|cbn; rewrite ?Hin; cbn; lia]|].
  unfold bind at 1 in E. unfold print at 1 in E. cbv beta iota in E.
  apply IH in E.
  - cbn [stdin with_stdin add_out] in E. destruct E as [Hr Hle].
    split; [exact Hr|cbn; lia].
  - cbn [self with_stdin add_out set_dealer set_deck deck].
    rewrite Hpop, length_app in Hlen. cbn in Hlen. lia.
Qed.

Lemma reads_dealer_play : reads dealer_play.
Proof.
  intros w r w' E.
  exact (dealer_play_loop_reads _ w r w' (Nat.lt_succ_diag_r _) E).
Qed.

Lemma reads_check_if_dealer_plays : reads check_if_dealer_plays.
Proof.
  unfold check_if_dealer_plays. pose proof reads_dealer_play. reads_easy.
Qed.

Lemma reads_check_who_wins (e : Who) : reads (check_who_wins e).
Proof. unfold check_who_wins. reads_easy. Qed.

Lemma game_loop_reads (k : nat) : reads_w k (game_loop (S k)).
Proof.
  pose proof (reads_entity_play Main) as Hmain.
  pose proof (reads_entity_play Second) as Hsecond.
  pose proof reads_check_if_dealer_plays as Hdealer.
  pose proof (reads_check_who_wins Main) as Hwin.
  pose proof (reads_check_who_wins Second) as Hwin2.
  pose proof reads_reset as Hreset.
  induction k as [|k IH];
    [|remember (S k) as k' eqn:Hk]; cbn [game_loop]; [|subst k'];
    (apply reads_w_bind; [apply reads_reads_w, reads_get|intros g]);
    (destruct (start_amount g <? 1);
     [apply reads_reads_w; unfold sys_exit; solve [reads_easy]|]);
    (apply reads_w_bind; [apply reads_reads_w, reads_print|intros _]);
    apply reads_some_w_reads_w;
    (apply reads_w_bind_some;
     [apply reads_some_reads_some_w, reads_entity_bet|intros amt n' Hn]).
  - discriminate Hn.
  - injection Hn as <-. reads_w_easy IH.
Qed.

Lemma game_loop_never_returns (fuel : nat) : never_returns (game_loop fuel).
Proof.
  induction fuel as [|fuel IH]; cbn [game_loop].
  - apply never_returns_out_of_fuel.
  - apply never_returns_bind. intros g.
    destruct (start_amount g <? 1);
      repeat (apply never_returns_bind; intros ?);
      [apply never_returns_raise|exact IH].
Qed.

(** The session has fuel enough whatever is typed, and it ends only by
    raising: [SystemExit] when the player quits or is broke, or an error
    when the console or the deck runs out. *)
Lemma game_ends_by_raising (w w' : World) (r : Res unit) :
  game w = (r, w') -> exists e, r = Raise e.
Proof.
  intros E.
  assert (Hfuel : r <> NoFuel).
  { revert E. unfold game.
    assert (H : reads (print Rules;; g <- get;;
                       print (Credited (start_amount g));;
                       (fun w => game_loop (S (List.length (stdin w))) w))).
    { apply reads_bind; [apply reads_print|intros _].
      apply reads_bind; [apply reads_get|intros g].
      apply reads_bind; [apply reads_print|intros _].
      intros v r' v' E'.
      exact (game_loop_reads (List.length (stdin v)) v r' v' (le_n _) E'). }
    intros E. exact (proj1 (H w r w' E)). }
  assert (Hval : forall a, r <> Val a).
  { intros a. revert E. unfold game.
    apply never_returns_bind. intros _.
    apply never_returns_bind. intros g.
    apply never_returns_bind. intros _.
    intros v r' v' b E'. exact (game_loop_never_returns _ v r' v' b E'). }
  destruct r as [a|e|]; [now contradiction (Hval a)|now exists e|
                         now contradiction Hfuel].
Qed.

End Methods.

End Totality.

(** ** The claims about the round and the session *)

Section Claims.

Context {py : Builtins}.

(** The dealer's turn in terms of the value the code computes, with the
    dealer's aces promoted up to 17 only: a card is drawn only while
    that value is strictly below 17, one card at a time from the top of
    the deck, and nothing else of the game changes; the turn returns
    only at a value of at least 17; after a draw that takes the value
    above 21 the turn ends at once, without the pause read after every
    other draw; and the threshold of that early exit, [limit + 4], is
    21.  The turn never runs out of fuel: it ends otherwise only when
    the deck, the console or a hand to display is empty. *)
Theorem dealer_hits_below_17 (w w' : World) (r : Res unit) :
  limit (dealer (self w)) = 17 ->
  dealer_play w = (r, w') ->
  limit (dealer (self w)) + 4 = 21
  /\ exists rest drawn consumed,
      deck (self w) = rest ++ rev drawn
      /\ self w' = dealer_drew (self w) rest drawn
      /\ stdin w = consumed ++ stdin w'
      /\ (forall k, (k < List.length drawn)%nat ->
                    dealer_score_after (self w) (firstn k drawn) < 17)
      /\ (r = Val tt ->
          17 <= dealer_score_after (self w) drawn
          /\ List.length consumed = pauses (self w) drawn)
      /\ (r = Raise IndexError ->
          deck (self w') = [] \/ ~ shown_ok true true true (self w'))
      /\ (r = Raise EOFError -> stdin w' = [])
      /\ r <> NoFuel /\ r <> Raise SystemExit.
Proof.
  intros Hlim Hrun. split; [lia|].
  apply (dealer_play_loop_spec (S (List.length (deck (self w)))) w w' r);
    [lia|exact Hlim|exact Hrun].
Qed.

(** C5: doubling down doubles the entity's bet and deals it exactly one
    card, the top of the deck, whatever that card is; and when the main
    hand, not yet bust, chooses to double down where that is on offer,
    its turn returns with that one card taken and that one line read,
    also when the card takes the hand above 21. *)
Theorem double_down_one_card_then_stop (e : Who) (w : World) (c : Card)
    (d : list Card) :
  deck (self w) = d ++ [c] ->
  shown_ok true true true (doubled e c d (self w)) ->
  (exists out,
      entity_double_down e w
      = (Val tt, after w (doubled e c d (self w)) (stdin w) out))
  /\ money (get_entity e (doubled e c d (self w)))
     = money (get_entity e (self w)) * 2
  /\ hand (get_entity e (doubled e c d (self w)))
     = hand (get_entity e (self w)) ++ [c]
  /\ deck (doubled e c d (self w)) = d
  /\ (forall l lines,
         e = Main ->
         get_hand_value (player (self w)) <= limit (player (self w)) ->
         stdin w = l :: lines ->
         str_upper (str_strip l) = "D"%string ->
         mem "(D)ouble down" (moves_offered (self w) Main) = true ->
         exists out,
           entity_play Main w
           = (Val tt, after w (doubled Main c d (self w)) lines out)).
Proof.
  intros Hd Hok.
  split; [exact (entity_double_down_run e w c d Hd Hok)|].
  split; [destruct e; reflexivity|].
  split; [destruct e; reflexivity|].
  split; [destruct e; reflexivity|].
  intros l lines -> Hlive Hin Hl Hm.
  unfold entity_play. unfold bind at 1. unfold get at 1.
  cbn [player_or_split negb andb]. rewrite Hin.
  cbn [List.length entity_play_loop].
  unfold bind at 1. unfold get at 1. cbn [get_entity].
  destruct (Z.gtb_spec (get_hand_value (player (self w)))
                       (limit (player (self w)))) as [Hb|_]; [lia|].
  unfold bind at 1. unfold print at 1. cbv beta iota.
  unfold bind at 1.
  match goal with
  | |- context [entity_possible_moves Main ?W] =>
      destruct (choose_double_down W l lines Hin Hl Hm) as [o1 E];
        rewrite E; clear E
  end.
  match goal with
  | |- context [entity_double_down Main ?W] =>
      destruct (entity_double_down_run Main W c d Hd Hok) as [o2 E];
        rewrite E; clear E
  end.
  eexists. unfold after, add_out. cbn [self stdin stdout rng rng_used].
  rewrite <- !app_assoc. reflexivity.
Qed.

(** What [check_who_wins] does to the world, by the cases of the two
    scores. *)
Lemma settlement_run (e : Who) (w : World) :
  let g := self w in
  let E := get_hand_value (get_entity e g) in
  let D := get_hand_value (dealer g) in
  let B := money (get_entity e g) in
  limit (get_entity e g) = 21 ->
  e = Main \/ split g = true ->
  shown_ok true (player_or_split e) (negb (player_or_split e)) g ->
  exists out delta,
    check_who_wins e w
    = (Val tt, after w (set_start_amount (start_amount g + delta) g)
                     (stdin w) out)
    /\ (21 < E -> delta = - B)
    /\ (E <= 21 -> 21 < D -> delta = B)
    /\ (E <= 21 -> D <= 21 -> E < D -> delta = - B)
    /\ (E <= 21 -> D <= 21 -> D < E -> delta = B)
    /\ (E <= 21 -> D <= 21 -> E = D -> delta = 0).
Proof.
  intros g E D B Hlim Hplays Hok.
  unfold check_who_wins. unfold bind at 1. unfold get at 1. fold g.
  assert (Hgo : negb (player_or_split e) && negb (split g) = false).
  { destruct Hplays as [-> | ->]; [reflexivity|apply andb_false_r]. }
  rewrite Hgo. unfold bind at 1.
  destruct (display_scores_like true true (player_or_split e)
              (negb (player_or_split e)) w)
    as [o [[_ Ed]|[Hno _]]]; [rewrite Ed; clear Ed|contradiction].
  fold E D B. rewrite Hlim.
  destruct (Z.gtb_spec E 21) as [HE|HE].
  { eexists. exists (- B). split; [|repeat split; intros; lia].
    unfold bind, print, modify, after, add_out.
    cbn [self stdin stdout rng rng_used].
    rewrite Z.add_opp_r, <- !app_assoc. reflexivity. }
  destruct (Z.gtb_spec D 21) as [HD|HD].
  { eexists. exists B. split; [|repeat split; intros; lia].
    unfold bind, print, modify, after, add_out.
    cbn [self stdin stdout rng rng_used].
    rewrite <- !app_assoc. reflexivity. }
  destruct (Z.ltb_spec E D) as [Hlt|Hge].
  { eexists. exists (- B). split; [|repeat split; intros; lia].
    unfold bind, print, modify, after, add_out.
    cbn [self stdin stdout rng rng_used].
    rewrite Z.add_opp_r, <- !app_assoc. reflexivity. }
  destruct (Z.gtb_spec E D) as [Hgt|Hle].
  { eexists. exists B. split; [|repeat split; intros; lia].
    unfold bind, print, modify, after, add_out.
    cbn [self stdin stdout rng rng_used].
    rewrite <- !app_assoc. reflexivity. }
  destruct (Z.eqb_spec E D) as [Heq|Hne]; [|lia].
  eexists. exists 0. split; [|repeat split; intros; lia].
  rewrite set_start_amount_same.
  unfold print, after, add_out. cbn [self stdin stdout rng rng_used].
  rewrite <- !app_assoc. reflexivity.
Qed.

(** C6: settling a player's hand (the main hand, or the second hand
    after a split) against the dealer adds [delta] to the bankroll: the
    bankroll afterwards is the bankroll before plus [delta], and the
    deck, the three hands, the bets, the split flag and the console
    input are as before, where for an entity score [E], a dealer score
    [D] and a bet [B]: [delta = -B] if [E > 21]; else [delta = B] if
    [D > 21]; else [delta = -B] if [E < D]; else [delta = B] if
    [E > D]; and [delta = 0] if [E = D]. *)
Theorem settlement_by_cases (e : Who) (w : World) :
  let g := self w in
  let E := get_hand_value (get_entity e g) in
  let D := get_hand_value (dealer g) in
  let B := money (get_entity e g) in
  let w' := snd (check_who_wins e w) in
  limit (get_entity e g) = 21 ->
  e = Main \/ split g = true ->
  shown_ok true (player_or_split e) (negb (player_or_split e)) g ->
  exists out delta,
    check_who_wins e w
    = (Val tt, after w (set_start_amount (start_amount g + delta) g)
                     (stdin w) out)
    /\ start_amount (self w') = start_amount g + delta
    /\ deck (self w') = deck g
    /\ player (self w') = player g
    /\ player_split (self w') = player_split g
    /\ dealer (self w') = dealer g
    /\ split (self w') = split g
    /\ player_name (self w') = player_name g
    /\ stdin w' = stdin w
    /\ (21 < E -> delta = - B)
    /\ (E <= 21 -> 21 < D -> delta = B)
    /\ (E <= 21 -> D <= 21 -> E < D -> delta = - B)
    /\ (E <= 21 -> D <= 21 -> D < E -> delta = B)
    /\ (E <= 21 -> D <= 21 -> E = D -> delta = 0).
Proof.
  intros g E D B w' Hlim Hplays Hok.
  destruct (settlement_run e w Hlim Hplays Hok)
    as (out & delta & Erun & Hcases).
  exists out, delta. split; [exact Erun|].
  subst w'. rewrite Erun.
  cbn [snd self after stdin start_amount deck player player_split dealer
       split player_name set_start_amount].
  repeat (split; [reflexivity|]).
  exact Hcases.
Qed.

(** C7: splitting a main hand of two cards [[a; b]] moves [b] to the
    second hand, deals the top card of the deck to the second hand and
    the next one to the main hand, so that each hand holds two cards,
    gives the second hand a bet equal to the main hand's, which is left
    as it is, and sets the split flag; bankroll, dealer and console input
    are untouched. *)
Theorem split_deals_two_hands (w : World) (a b c1 c2 : Card)
    (d : list Card) :
  hand (player (self w)) = [a; b] ->
  hand (player_split (self w)) = [] ->
  deck (self w) = d ++ [c2; c1] ->
  exists w',
    entity_split w = (Val tt, w')
    /\ hand (player (self w')) = [a; c2]
    /\ hand (player_split (self w')) = [b; c1]
    /\ deck (self w') = d
    /\ money (player_split (self w')) = money (player (self w))
    /\ money (player (self w')) = money (player (self w))
    /\ split (self w') = true
    /\ start_amount (self w') = start_amount (self w)
    /\ dealer (self w') = dealer (self w)
    /\ stdin w' = stdin w.
Proof.
  intros Hp Hs Hd. eexists. split.
  - apply (entity_split_run w a b c1 c2 d Hp Hs Hd).
  - cbn. repeat split.
Qed.

(** C8, as the code has it: when the main hand, not yet bust, chooses
    to split where that is on offer, then if its score after the split
    is below its ceiling its turn goes on from the world the split
    leaves, and ends there otherwise; on that next decision only Hit and
    Stand are on offer: Double down and Split are not. *)
Theorem main_hand_after_split (w : World) (l : string)
    (lines : list string) (a b c1 c2 : Card) (d : list Card) :
  get_hand_value (player (self w)) <= limit (player (self w)) ->
  stdin w = l :: lines ->
  str_upper (str_strip l) = "X"%string ->
  mem "(X)split" (moves_offered (self w) Main) = true ->
  hand (player (self w)) = [a; b] ->
  hand (player_split (self w)) = [] ->
  deck (self w) = d ++ [c2; c1] ->
  hand (dealer (self w)) <> [] ->
  let g2 := split_hands a b c1 c2 d (self w) in
  moves_offered g2 Main = ["(H)it"; "(S)tand"]%string
  /\ exists out,
      entity_play Main w
      = if get_hand_value (player g2) <? limit (player g2)
        then entity_play Main (after w g2 lines out)
        else (Val tt, after w g2 lines out).
Proof.
  intros Hlive Hin Hl Hm Hp Hs Hd Hdealer g2.
  split; [apply moves_after_split|].
  assert (Hloop : forall k, exists out,
             entity_play_loop (S k) Main w
             = if get_hand_value (player g2) <? limit (player g2)
               then entity_play_loop k Main (after w g2 lines out)
               else (Val tt, after w g2 lines out)).
  { intros k. cbn [entity_play_loop].
    unfold bind at 1. unfold get at 1. cbn [get_entity].
    destruct (Z.gtb_spec (get_hand_value (player (self w)))
                         (limit (player (self w)))) as [Hb|_]; [lia|].
    unfold bind at 1. unfold print at 1. cbv beta iota.
    unfold bind at 1.
    match goal with
    | |- context [entity_possible_moves Main ?W] =>
        destruct (choose_split W l lines Hin Hl Hm) as [o1 E];
          rewrite E; clear E
    end.
    unfold bind at 1.
    match goal with
    | |- context [entity_split ?W] =>
        rewrite (entity_split_run W a b c1 c2 d Hp Hs Hd)
    end.
    cbn [self after stdin stdout rng rng_used].
    unfold bind at 1.
    match goal with
    | |- context [display_scores _ _ _ _ ?W] =>
        destruct (display_scores_like false true true true W)
          as [o2 [[_ E]|[Hno _]]];
          [rewrite E; clear E
          |exfalso; apply Hno; repeat split; intros; try discriminate;
           exact Hdealer]
    end.
    unfold bind at 1. unfold get at 1.
    cbn [self add_out after player_or_split andb stdin stdout rng rng_used].
    fold g2.
    eexists.
    destruct (get_hand_value (player g2) <? limit (player g2)).
    - unfold after, add_out. cbn [self stdin stdout rng rng_used].
      rewrite <- !app_assoc. reflexivity.
    - unfold ret, after, add_out. cbn [self stdin stdout rng rng_used].
      rewrite <- !app_assoc. reflexivity. }
  destruct (Hloop (S (List.length lines))) as [out E].
  exists out.
  unfold entity_play, bind, get. cbn [player_or_split negb andb after stdin].
  rewrite Hin. exact E.
Qed.

(** C9: with a bankroll below 1 the session loop prints the three lines
    of the broke message and exits, whatever fuel it has: no line is
    read, so no bet is asked for, and the game object is left untouched,
    so no round is played.  So does [game] itself, after the rules and
    the credit line. *)
Theorem broke_session_ends (w : World) (fuel : nat) :
  start_amount (self w) < 1 ->
  game_loop (S fuel) w = (Raise SystemExit, add_out w broke_messages)
  /\ game w
     = (Raise SystemExit,
        add_out w ([Rules; Credited (start_amount (self w))]
                     ++ broke_messages)).
Proof.
  intros Hbroke.
  assert (Hloop : forall k v,
             start_amount (self v) < 1 ->
             game_loop (S k) v = (Raise SystemExit, add_out v broke_messages)).
  { intros k v Hv. cbn [game_loop]. unfold bind at 1. unfold get at 1.
    destruct (Z.ltb_spec (start_amount (self v)) 1) as [_|Hge]; [|lia].
    unfold bind, print, sys_exit, raise, add_out, broke_messages.
    cbn [self stdin stdout rng rng_used].
    rewrite <- !app_assoc. reflexivity. }
  split; [apply Hloop, Hbroke|].
  unfold game. unfold bind at 1. unfold print at 1. cbv beta iota.
  unfold bind at 1. unfold get at 1.
  unfold bind at 1. unfold print at 1. cbv beta iota.
  rewrite Hloop by exact Hbroke.
  unfold add_out. cbn [self stdin stdout rng rng_used].
  rewrite <- !app_assoc. reflexivity.
Qed.

(** C10: in a round without a split, the turn of the second hand and
    the settlement of the second hand both return at once and leave the
    whole world as it was: bankroll, deck, dealer's hand, main hand,
    second hand, console. *)
Theorem second_hand_idle_without_split (w : World) :
  split (self w) = false ->
  entity_play Second w = (Val tt, w)
  /\ check_who_wins Second w = (Val tt, w).
Proof.
  intros Hs. split.
  - unfold entity_play, bind, get. rewrite Hs. reflexivity.
  - unfold check_who_wins, bind, get. rewrite Hs. reflexivity.
Qed.

End Claims.

(** ** The deck, the table and the money *)

Import Totality.

Module DeckFacts.

Lemma set_nth_length {A} (i : nat) (a : A) (l : list A) :
  List.length (set_nth i a l) = List.length l.
Proof.
  revert i. induction l as [|x l IH]; intros [|i]; cbn; auto.
Qed.

(** Writing at [i] what is read at [j] and the converse permutes. *)
Lemma swap_Permutation {A} (i j : nat) (l : list A) :
  Permutation l (swap i j l).
Proof.
  unfold swap.
  destruct (nth_error l i) as [a|] eqn:Hi; [|reflexivity].
  destruct (nth_error l j) as [b|] eqn:Hj; [|reflexivity].
  revert i j Hi Hj.
  induction l as [|x l IH]; intros i j Hi Hj; [destruct i; discriminate|].
  destruct i as [|i], j as [|j]; cbn in *.
  - injection Hi as ->. injection Hj as ->. reflexivity.
  - injection Hi as ->.
    (* x :: l  ~  b :: set_nth j a l, with nth l j = b *)
    clear IH. revert j Hj. induction l as [|y l IH]; intros j Hj;
      [destruct j; discriminate|].
    destruct j as [|j]; cbn in *.
    + injection Hj as ->. apply perm_swap.
    + specialize (IH j Hj).
      rewrite (perm_swap y b). rewrite perm_swap.
      constructor. exact IH.
  - injection Hj as ->.
    clear IH. revert i Hi. induction l as [|y l IH]; intros i Hi;
      [destruct i; discriminate|].
    destruct i as [|i]; cbn in *.
    + injection Hi as ->. apply perm_swap.
    + specialize (IH i Hi).
      rewrite (perm_swap y a). rewrite perm_swap.
      constructor. exact IH.
  - constructor. apply IH; assumption.
Qed.

End DeckFacts.

Module ShuffleFacts.
Import DeckFacts.

Lemma shuffle_from_run {A} (i : nat) :
  forall (x : list A) (w : World),
  exists y,
    shuffle_from i x w
    = (Val y, mkWorld (self w) (stdin w) (stdout w) (rng w) (rng_used w + i))
    /\ Permutation x y.
Proof.
  induction i as [|i IH]; intros x w.
  - exists x. split; [|reflexivity].
    cbn. unfold ret. destruct w; cbn. now rewrite Nat.add_0_r.
  - cbn [shuffle_from]. unfold bind, randbelow.
    cbn [self stdin stdout rng rng_used].
    match goal with
    | |- context [shuffle_from i ?X ?W] =>
        destruct (IH X W) as (y & E & Hp); rewrite E
    end.
    exists y. split.
    + cbn [self stdin stdout rng rng_used]. do 2 f_equal. lia.
    + etransitivity; [apply swap_Permutation|exact Hp].
Qed.

Lemma make_cards_run (w : World) :
  exists cards,
    make_cards w
    = (Val cards,
       mkWorld (self w) (stdin w) (stdout w) (rng w) (rng_used w + 51))
    /\ Permutation ordered_cards cards.
Proof.
  unfold make_cards, shuffle.
  exact (shuffle_from_run 51 ordered_cards w).
Qed.

Lemma ordered_cards_NoDup : NoDup ordered_cards.
Proof.
  unfold ordered_cards. cbn.
  repeat (constructor; [cbn; intuition discriminate|]).
  constructor.
Qed.

End ShuffleFacts.
Import DeckFacts ShuffleFacts.

Module MoreScore.

Lemma hard_total_Permutation (h h' : list Card) :
  Permutation h h' -> hard_total h = hard_total h'.
Proof.
  unfold hard_total.
  induction 1 as [|x l l' _ IH|x y l|l l' l'' _ IH1 _ IH2];
    cbn [fold_right]; lia.
Qed.

Lemma aces_Permutation (h h' : list Card) :
  Permutation h h' -> aces h = aces h'.
Proof.
  unfold aces.
  induction 1 as [|x l l' _ IH|x y l|l l' l'' _ IH1 _ IH2]; cbn [filter].
  - reflexivity.
  - destruct (rank_is_A (rank x)); cbn [List.length]; now rewrite IH.
  - destruct (rank_is_A (rank x)), (rank_is_A (rank y)); reflexivity.
  - now rewrite IH1.
Qed.

Lemma standard_value_pos (c : Card) : standard c -> 1 <= value c <= 10.
Proof.
  unfold standard, ordered_cards. cbn. intros H.
  repeat (destruct H as [H|H]; [subst c; cbn; lia|]).
  contradiction.
Qed.

Lemma hard_total_standard (h : list Card) :
  Forall standard h -> Z.of_nat (List.length h) <= hard_total h.
Proof.
  induction 1 as [|c h Hc _ IH]; cbn [hard_total fold_right List.length].
  - lia.
  - apply standard_value_pos in Hc. fold (hard_total h). lia.
Qed.

Lemma aces_le_length (h : list Card) : (aces h <= List.length h)%nat.
Proof. unfold aces. apply filter_length_le. Qed.

End MoreScore.
Import MoreScore.

Lemma roundup_spec (x : Z) :
  roundup x mod 100 = 0
  /\ x <= roundup x < x + 100
  /\ roundup (roundup x) = roundup x.
Proof.
  assert (H : roundup x mod 100 = 0 /\ x <= roundup x < x + 100).
  { unfold roundup.
    pose proof (Z.mod_pos_bound x 100 ltac:(lia)) as Hb.
    destruct (Z.eqb_spec (x mod 100) 0) as [E|E].
    - split; [exact E|lia].
    - split; [|lia].
      pose proof (Z.div_mod x 100 ltac:(lia)) as Hd.
      replace (x + 100 - x mod 100) with ((x / 100 + 1) * 100) by lia.
      apply Z.mod_mul. lia. }
  destruct H as [Hm Hb]. repeat split; try lia; try exact Hm.
  unfold roundup at 1. rewrite Hm. reflexivity.
Qed.

(** X1: [roundup x] is a multiple of 100 that is at least [x] and less
    than [x + 100], hence the least multiple of 100 not below [x]; on a
    multiple of 100 it changes nothing, so rounding up twice is rounding
    up once. *)
Theorem roundup_next_hundred (x : Z) :
  roundup x mod 100 = 0
  /\ x <= roundup x < x + 100
  /\ roundup (roundup x) = roundup x.
Proof.
  exact (roundup_spec x).
Qed.

(** X5: the value of a hand does not depend on the order of its cards:
    two hands holding the same cards score the same, for the dealer and
    for a player. *)
Theorem hand_value_order_free (e : Entity) (h h' : list Card) :
  Permutation h h' ->
  get_hand_value (with_hand e h) = get_hand_value (with_hand e h').
Proof.
  intros Hp. rewrite !get_hand_value_unfold. cbn [hand limit with_hand].
  fold (hard_total h) (hard_total h').
  now rewrite (hard_total_Permutation _ _ Hp), (aces_Permutation _ _ Hp).
Qed.

Lemma get_hand_value_bounds (e : Entity) :
  hard_total (hand e) <= get_hand_value e
  /\ get_hand_value e <= Z.max (hard_total (hand e)) (limit e)
  /\ get_hand_value e <= hard_total (hand e) + 10 * Z.of_nat (aces (hand e))
  /\ (aces (hand e) = 0%nat -> get_hand_value e = hard_total (hand e))
  /\ (get_hand_value e - hard_total (hand e)) mod 10 = 0.
Proof.
  rewrite get_hand_value_unfold, promote_aces_closed.
  fold (hard_total (hand e)).
  set (v := hard_total (hand e)). set (n := aces (hand e)).
  pose proof (Z.div_mod (limit e - v) 10 ltac:(lia)) as Hq.
  pose proof (Z.mod_pos_bound (limit e - v) 10 ltac:(lia)) as Hr.
  split; [lia|]. split; [lia|]. split; [lia|]. split.
  - intros E. assert (E' : Z.of_nat n = 0) by (subst n; now rewrite E).
    lia.
  - replace (v + 10 * Z.min (Z.of_nat n) (Z.max 0 ((limit e - v) / 10)) - v)
      with (Z.min (Z.of_nat n) (Z.max 0 ((limit e - v) / 10)) * 10) by lia.
    apply Z.mod_mul. lia.
Qed.

(** X6: the value of a hand is its plain sum, aces counted 1, plus 10
    for each promoted ace: it is at least the plain sum, exceeds it by a
    multiple of 10 and by at most 10 for every ace held, is the plain sum
    when the hand has no ace, and a promotion never takes it above the
    entity's limit: the value is at most the larger of the plain sum and
    the limit. *)
Theorem hand_value_bounds (e : Entity) :
  hard_total (hand e) <= get_hand_value e
  /\ get_hand_value e <= Z.max (hard_total (hand e)) (limit e)
  /\ get_hand_value e <= hard_total (hand e) + 10 * Z.of_nat (aces (hand e))
  /\ (aces (hand e) = 0%nat -> get_hand_value e = hard_total (hand e))
  /\ (get_hand_value e - hard_total (hand e)) mod 10 = 0.
Proof.
  exact (get_hand_value_bounds e).
Qed.

(** X7: in a player's hand of cards of the deck at most one ace counts
    11: the value is the plain sum, or the plain sum plus 10, and the
    latter only with an ace in the hand and a total of at most 21. *)
Theorem player_hand_soft_or_hard (h : list Card) (m : Z) (n : string) :
  Forall standard h ->
  get_hand_value (NewPlayer h m n) = hard_total h
  \/ (get_hand_value (NewPlayer h m n) = hard_total h + 10
      /\ (1 <= aces h)%nat /\ hard_total h + 10 <= 21).
Proof.
  intros Hs.
  rewrite get_hand_value_unfold, promote_aces_closed.
  cbn [hand limit NewPlayer base]. fold (hard_total h).
  pose proof (hard_total_standard h Hs) as Hlen.
  pose proof (aces_le_length h) as Ha.
  pose proof (Z.div_mod (21 - hard_total h) 10 ltac:(lia)) as Hq.
  pose proof (Z.mod_pos_bound (21 - hard_total h) 10 ltac:(lia)) as Hr.
  set (q := (21 - hard_total h) / 10) in *.
  destruct (Z.min_spec (Z.of_nat (aces h)) (Z.max 0 q)) as [[_ E]|[_ E]];
    rewrite E; lia.
Qed.

Module DealFacts.

Lemma last_four {A} (l : list A) :
  (4 <= List.length l)%nat ->
  exists rest a b c d, l = rest ++ [a; b; c; d].
Proof.
  intros Hlen. rewrite <- (rev_involutive l).
  rewrite <- length_rev in Hlen.
  destruct (rev l) as [|d [|c [|b [|a r]]]]; cbn in Hlen; try lia.
  exists (rev r), a, b, c, d. cbn. rewrite <- !app_assoc. reflexivity.
Qed.

Lemma deal_run (amount : Z) (pname : string) (w : World) :
  exists rest d2 d1 p2 p1,
    deal amount pname w
    = (Val tt,
       mkWorld
         (mkBlackJack amount rest pname
            (NewPlayer [p1; p2] 0 pname) (Dealer [d1; d2])
            (NewPlayer [] 0 (pname ++ " hand_two")) false)
         (stdin w) (stdout w) (rng w) (rng_used w + 51))
    /\ Permutation ordered_cards (rest ++ [d2; d1; p2; p1]).
Proof.
  destruct (make_cards_run w) as (cards & E & Hp).
  destruct (last_four cards) as (rest & d2 & d1 & p2 & p1 & Hc).
  { rewrite <- (Permutation_length Hp). vm_compute. lia. }
  exists rest, d2, d1, p2, p1. split; [|now rewrite <- Hc].
  unfold deal. unfold bind at 1. rewrite E.
  unfold bind at 1. unfold modify at 1. cbv beta iota.
  cbn [self stdin stdout rng rng_used set_deck].
  unfold bind at 1. rewrite deck_pop_run. cbn [self deck set_deck].
  rewrite Hc.
  replace (rest ++ [d2; d1; p2; p1]) with ((rest ++ [d2; d1; p2]) ++ [p1])
    by (rewrite <- app_assoc; reflexivity).
  rewrite pop_last_app.
  unfold bind at 1. rewrite deck_pop_run.
  cbn [self with_self set_deck deck].
  replace (rest ++ [d2; d1; p2]) with ((rest ++ [d2; d1]) ++ [p2])
    by (rewrite <- app_assoc; reflexivity).
  rewrite pop_last_app.
  unfold bind at 1. rewrite deck_pop_run.
  cbn [self with_self set_deck deck].
  replace (rest ++ [d2; d1]) with ((rest ++ [d2]) ++ [d1])
    by (rewrite <- app_assoc; reflexivity).
  rewrite pop_last_app.
  unfold bind at 1. rewrite deck_pop_run.
  cbn [self with_self set_deck deck].
  rewrite pop_last_app.
  unfold modify. cbn [self with_self set_deck deck stdin stdout rng rng_used].
  reflexivity.
Qed.

End DealFacts.
Import DealFacts.

(** X2: [make_cards] never fails and returns a full deck: the 52 cards
    of the four suits and thirteen ranks in some order, no card twice,
    each valued 1 for an ace, 10 for a jack, queen or king and its
    number otherwise.  It makes 51 random draws and touches nothing else
    of the world. *)
Theorem make_cards_full_deck (w : World) :
  exists cards,
    make_cards w
    = (Val cards,
       mkWorld (self w) (stdin w) (stdout w) (rng w) (rng_used w + 51))
    /\ Permutation ordered_cards cards
    /\ NoDup cards
    /\ List.length cards = 52%nat
    /\ Forall (fun c => standard c /\ value c = base_value (rank c)) cards.
Proof.
  destruct (make_cards_run w) as (cards & E & Hp).
  exists cards. split; [exact E|]. split; [exact Hp|].
  split; [exact (Permutation_NoDup Hp ordered_cards_NoDup)|].
  split; [rewrite <- (Permutation_length Hp); reflexivity|].
  apply Forall_forall. intros c Hc.
  assert (Hs : standard c)
    by (unfold standard; apply (Permutation_in _ (Permutation_sym Hp) Hc)).
  split; [exact Hs|exact (standard_value c Hs)].
Qed.

Lemma init_run (pname : string) (w : World) :
  exists w',
    init pname w = (Val tt, w')
    /\ fresh_round (self w')
    /\ player_name (self w') = pname
    /\ 1000 <= start_amount (self w') <= 10000
    /\ start_amount (self w') mod 100 = 0
    /\ List.length (deck (self w')) = 48%nat
    /\ Permutation ordered_cards (all_cards (self w'))
    /\ stdin w' = stdin w
    /\ stdout w' = stdout w.
Proof.
  unfold init, randint.
  unfold bind at 1. unfold bind at 1. unfold randbelow at 1.
  cbv beta iota. unfold ret at 1. cbv beta iota.
  set (k := Nat.modulo (rng w (rng_used w)) (Z.to_nat (10000 - 1000 + 1))).
  assert (Hk : 0 <= Z.of_nat k < 9001).
  { subst k. rewrite Nat2Z.inj_mod, Z2Nat.id by lia.
    pose proof (Z.mod_pos_bound (Z.of_nat (rng w (rng_used w)))
                  (10000 - 1000 + 1) ltac:(lia)).
    lia. }
  match goal with
  | |- context [deal ?a pname ?W] =>
      destruct (deal_run a pname W) as (rest & d2 & d1 & p2 & p1 & E & Hp);
        rewrite E; clear E
  end.
  eexists. split; [reflexivity|].
  cbn [self stdin stdout start_amount player_name deck].
  destruct (roundup_spec (1000 + Z.of_nat k)) as (Hm & Hb & _).
  split.
  { unfold fresh_round. cbn. repeat split; eauto. }
  split; [reflexivity|].
  split.
  { split; [lia|].
    unfold roundup in *.
    pose proof (Z.mod_pos_bound (1000 + Z.of_nat k) 100 ltac:(lia)) as Hr.
    pose proof (Z.div_mod (1000 + Z.of_nat k) 100 ltac:(lia)) as Hd.
    destruct (Z.eqb_spec ((1000 + Z.of_nat k) mod 100) 0); lia. }
  split; [exact Hm|].
  split.
  { apply Permutation_length in Hp. rewrite length_app in Hp.
    cbn in Hp. change (List.length ordered_cards) with 52%nat in Hp. lia. }
  split; [|split; reflexivity].
  unfold all_cards. cbn [deck player player_split dealer hand base NewPlayer Dealer].
  rewrite Hp. apply Permutation_app_head.
  cbn. change [d2; d1; p2; p1] with ([d2; d1] ++ [p2; p1]).
  change [p1; p2; d1; d2] with ([p1; p2] ++ [d1; d2]).
  rewrite Permutation_app_comm. apply Permutation_app; [apply perm_swap|apply perm_swap].
Qed.

(** X3: [BlackJack(player_name)] never fails.  It leaves a fresh round
    (two cards for the player, two for the dealer, an empty second hand,
    no bet, no split), a bankroll that is a multiple of 100 between 1000
    and 10000, 48 cards in the deck, and the deck and the hands together
    are exactly the 52 cards; nothing is read or printed. *)
Theorem init_full_table (pname : string) (w : World) :
  exists w',
    init pname w = (Val tt, w')
    /\ fresh_round (self w')
    /\ player_name (self w') = pname
    /\ 1000 <= start_amount (self w') <= 10000
    /\ start_amount (self w') mod 100 = 0
    /\ List.length (deck (self w')) = 48%nat
    /\ Permutation ordered_cards (all_cards (self w'))
    /\ stdin w' = stdin w
    /\ stdout w' = stdout w.
Proof.
  exact (init_run pname w).
Qed.

Lemma reset_run (w : World) :
  exists w',
    reset w = (Val tt, w')
    /\ fresh_round (self w')
    /\ start_amount (self w') = start_amount (self w)
    /\ player_name (self w') = player_name (self w)
    /\ List.length (deck (self w')) = 48%nat
    /\ Permutation ordered_cards (all_cards (self w'))
    /\ stdin w' = stdin w
    /\ stdout w' = stdout w.
Proof.
  unfold reset. unfold bind at 1. unfold get at 1.
  destruct (deal_run (start_amount (self w)) (player_name (self w)) w)
    as (rest & d2 & d1 & p2 & p1 & E & Hp).
  rewrite E. eexists. split; [reflexivity|].
  cbn [self stdin stdout start_amount player_name deck].
  split.
  { unfold fresh_round. cbn. repeat split; eauto. }
  split; [reflexivity|]. split; [reflexivity|].
  split.
  { apply Permutation_length in Hp. rewrite length_app in Hp.
    cbn in Hp. change (List.length ordered_cards) with 52%nat in Hp. lia. }
  split; [|split; reflexivity].
  unfold all_cards. cbn [deck player player_split dealer hand base NewPlayer Dealer].
  rewrite Hp. apply Permutation_app_head.
  cbn. change [d2; d1; p2; p1] with ([d2; d1] ++ [p2; p1]).
  change [p1; p2; d1; d2] with ([p1; p2] ++ [d1; d2]).
  rewrite Permutation_app_comm. apply Permutation_app; apply perm_swap.
Qed.

(** X4: [reset] never fails.  It deals a fresh round from a new full
    deck (48 cards left, deck and hands together the 52 cards), keeps the
    bankroll and the player's name, and reads and prints nothing. *)
Theorem reset_full_table (w : World) :
  exists w',
    reset w = (Val tt, w')
    /\ fresh_round (self w')
    /\ start_amount (self w') = start_amount (self w)
    /\ player_name (self w') = player_name (self w)
    /\ List.length (deck (self w')) = 48%nat
    /\ Permutation ordered_cards (all_cards (self w'))
    /\ stdin w' = stdin w
    /\ stdout w' = stdout w.
Proof.
  exact (reset_run w).
Qed.

Module Hoare.

Lemma triple_bind {A B} (I P : BlackJack -> Prop) (m : M A)
    (Q : A -> BlackJack -> Prop) (f : A -> M B)
    (R : B -> BlackJack -> Prop) :
  triple I P m Q -> (forall a, triple I (Q a) (f a) R) ->
  triple I P (bind m f) R.
Proof.
  intros Hm Hf w r w' HP E. unfold bind in E.
  destruct (m w) as [[a|e|] w1] eqn:Em; specialize (Hm w _ w1 HP Em);
    cbn in Hm.
  - exact (Hf a w1 r w' Hm E).
  - injection E as <- <-. exact Hm.
  - injection E as <- <-. exact Hm.
Qed.

Lemma triple_conseq {A} (I P P' : BlackJack -> Prop) (m : M A)
    (Q Q' : A -> BlackJack -> Prop) :
  (forall g, P' g -> P g) -> (forall a g, Q a g -> Q' a g) ->
  triple I P m Q -> triple I P' m Q'.
Proof.
  intros HP HQ Hm w r w' H E. specialize (Hm w r w' (HP _ H) E).
  destruct r; auto.
Qed.

Lemma triple_ret {A} (I P : BlackJack -> Prop) (a : A) :
  triple I P (ret a) (fun b g => b = a /\ P g).
Proof. intros w r w' HP [= <- <-]. now split. Qed.

Lemma triple_get (I P : BlackJack -> Prop) :
  triple I P get (fun a g => a = g /\ P g).
Proof. intros w r w' HP [= <- <-]. now split. Qed.

Lemma triple_modify (I P : BlackJack -> Prop) (f : BlackJack -> BlackJack) :
  triple I P (modify f) (fun _ g' => exists g, P g /\ g' = f g).
Proof. intros w r w' HP [= <- <-]. cbn. eauto. Qed.

(** A computation that keeps a view keeps every property of that view. *)
Lemma triple_keeps {A X} (view : BlackJack -> X) (I P : BlackJack -> Prop)
    (m : M A) :
  keeps view m ->
  (forall g g', view g' = view g -> P g -> P g') ->
  (forall g, P g -> I g) ->
  triple I P m (fun _ => P).
Proof.
  intros Hk Hv HI w r w' HP E.
  pose proof (Hv _ _ (Hk w r w' E) HP) as HP'.
  destruct r; auto.
Qed.

Lemma keeps_ret {A X} (view : BlackJack -> X) (a : A) : keeps view (ret a).
Proof. intros w r w' [= <- <-]. reflexivity. Qed.

Lemma keeps_raise {A X} (view : BlackJack -> X) (e : Exn) :
  keeps view (@raise A e).
Proof. intros w r w' [= <- <-]. reflexivity. Qed.

Lemma keeps_out_of_fuel {A X} (view : BlackJack -> X) :
  keeps view (@out_of_fuel A).
Proof. intros w r w' [= <- <-]. reflexivity. Qed.

Lemma keeps_get {X} (view : BlackJack -> X) : keeps view get.
Proof. intros w r w' [= <- <-]. reflexivity. Qed.

Lemma keeps_print {X} (view : BlackJack -> X) (m : Message) :
  keeps view (print m).
Proof. intros w r w' [= <- <-]. reflexivity. Qed.

Lemma keeps_input {X} (view : BlackJack -> X) (p : string) :
  keeps view (input p).
Proof.
  intros w r w' E. rewrite input_run in E.
  destruct (stdin w); injection E as <- <-; reflexivity.
Qed.

Lemma keeps_randbelow {X} (view : BlackJack -> X) (n : nat) :
  keeps view (randbelow n).
Proof. intros w r w' [= <- <-]. reflexivity. Qed.

Lemma keeps_modify {X} (view : BlackJack -> X) (f : BlackJack -> BlackJack) :
  (forall g, view (f g) = view g) -> keeps view (modify f).
Proof. intros Hf w r w' [= <- <-]. cbn. apply Hf. Qed.

Lemma keeps_bind {A B X} (view : BlackJack -> X) (m : M A) (f : A -> M B) :
  keeps view m -> (forall a, keeps view (f a)) -> keeps view (bind m f).
Proof.
  intros Hm Hf w r w' E. unfold bind in E.
  destruct (m w) as [[a|e|] w1] eqn:Em.
  - rewrite (Hf a _ _ _ E). exact (Hm _ _ _ Em).
  - injection E as <- <-. exact (Hm _ _ _ Em).
  - injection E as <- <-. exact (Hm _ _ _ Em).
Qed.

Lemma keeps_display {X} (view : BlackJack -> X) (ok : BlackJack -> Prop)
    (m : M unit) :
  display_like ok m -> keeps view m.
Proof.
  intros H w r w' E. destruct (H w) as [out [[_ E']|[_ E']]];
    rewrite E' in E; injection E as <- <-; reflexivity.
Qed.

Lemma keeps_deck_pop {X} (view : BlackJack -> X) :
  (forall d g, view (set_deck d g) = view g) -> keeps view deck_pop.
Proof.
  intros Hv w r w' E. rewrite deck_pop_run in E.
  destruct (pop_last (deck (self w))) as [[c d]|]; injection E as <- <-;
    [apply Hv|reflexivity].
Qed.

Lemma bank_set_deck (d : list Card) (g : BlackJack) :
  bank (set_deck d g) = bank g.
Proof. reflexivity. Qed.

Lemma bank_set_dealer (d : Entity) (g : BlackJack) :
  bank (set_dealer d g) = bank g.
Proof. reflexivity. Qed.

Lemma bank_with_hand (e : Who) (h : list Card) (g : BlackJack) :
  bank (set_entity e (player_with_hand (get_entity e g) h) g) = bank g.
Proof. destruct e; reflexivity. Qed.

(** The steps look at the shape of the computation only. *)
Ltac keeps_step :=
  lazymatch goal with
  | H : ?G |- ?G => exact H
  | |- keeps _ (ret _) => apply keeps_ret
  | |- keeps _ (raise _) => apply keeps_raise
  | |- keeps _ sys_exit => apply keeps_raise
  | |- keeps _ out_of_fuel => apply keeps_out_of_fuel
  | |- keeps _ get => apply keeps_get
  | |- keeps _ (print _) => apply keeps_print
  | |- keeps _ (input _) => apply keeps_input
  | |- keeps _ (randbelow _) => apply keeps_randbelow
  | |- keeps _ (display_scores _ _ _ _) =>
      apply (keeps_display _ _ _ (display_scores_like _ _ _ _))
  | |- keeps _ (bind _ _) => apply keeps_bind; [|intros ?]
  | |- keeps _ (if ?b then _ else _) => destruct b
  | |- keeps _ (match ?x with _ => _ end) => destruct x
  end.

Ltac keeps_easy := cbv zeta; repeat keeps_step.

Section Methods.

Context {py : Builtins}.

Lemma keeps_bank_deck_pop : keeps bank deck_pop.
Proof. apply keeps_deck_pop. intros; reflexivity. Qed.

Lemma keeps_bank_hand_append (e : Who) (c : Card) :
  keeps bank (hand_append e c).
Proof.
  unfold hand_append. apply keeps_modify. intros g. apply bank_with_hand.
Qed.

Lemma keeps_bank_entity_hit (e : Who) : keeps bank (entity_hit e).
Proof.
  unfold entity_hit.
  pose proof keeps_bank_deck_pop.
  apply keeps_bind; [assumption|intros c].
  apply keeps_bind; [apply keeps_get|intros g].
  apply keeps_bind; [apply keeps_print|intros _].
  apply keeps_bind; [apply keeps_print|intros _].
  apply keeps_bind; [apply keeps_bank_hand_append|intros _].
  keeps_easy.
Qed.

Lemma keeps_bank_entity_stand (e : Who) : keeps bank (entity_stand e).
Proof. unfold entity_stand. keeps_easy. Qed.

Lemma keeps_self_entity_possible_moves_loop (moves : list string)
    (prompt : string) (fuel : nat) :
  keeps (fun g => g) (entity_possible_moves_loop fuel moves prompt).
Proof.
  induction fuel as [|fuel IH]; cbn [entity_possible_moves_loop];
    keeps_easy.
Qed.

Lemma keeps_self_entity_possible_moves (e : Who) :
  keeps (fun g => g) (entity_possible_moves e).
Proof.
  intros w r w' E. unfold entity_possible_moves, bind, get in E.
  exact (keeps_self_entity_possible_moves_loop _ _ _ w r w' E).
Qed.

Lemma keeps_bank_dealer_play_loop (fuel : nat) :
  keeps bank (dealer_play_loop fuel).
Proof.
  pose proof keeps_bank_deck_pop.
  induction fuel as [|fuel IH]; cbn [dealer_play_loop]; keeps_easy.
  apply keeps_modify. intros g. apply bank_set_dealer.
Qed.

Lemma keeps_bank_dealer_play : keeps bank dealer_play.
Proof.
  intros w r w' E. exact (keeps_bank_dealer_play_loop _ w r w' E).
Qed.

Lemma keeps_bank_check_if_dealer_plays : keeps bank check_if_dealer_plays.
Proof.
  unfold check_if_dealer_plays. pose proof keeps_bank_dealer_play.
  keeps_easy.
Qed.

End Methods.

End Hoare.
Import Hoare.

Module Stakes.

Lemma double_down_offered (g : BlackJack) (e : Who) :
  mem "(D)ouble down" (moves_offered g e) = true ->
  e = Main /\ split g = false
  /\ List.length (hand (get_entity e g)) = 2%nat
  /\ money (get_entity e g) <= start_amount g - money (get_entity e g).
Proof.
  unfold moves_offered.
  destruct (Nat.eqb_spec (List.length (hand (get_entity e g))) 2) as [Hl|Hl];
    [|cbn; discriminate].
  destruct (Z.geb_spec (start_amount g - money (get_entity e g))
                       (money (get_entity e g))) as [Hm|Hm];
    [|cbn; discriminate].
  destruct e; [|cbn; discriminate].
  destruct (split g); [cbn; discriminate|].
  intros _. repeat split; try assumption; lia.
Qed.

Lemma split_offered (g : BlackJack) (e : Who) :
  mem "(X)split" (moves_offered g e) = true ->
  e = Main /\ split g = false
  /\ money (get_entity e g) <= start_amount g - money (get_entity e g).
Proof.
  intros H. apply mem_In in H.
  apply (proj2 (proj2 (moves_offered_split g e))) in H.
  destruct H as (_ & He & Hs & Hm). now repeat split.
Qed.

Section Methods.

Context {py : Builtins}.

Lemma entity_possible_moves_loop_offered (moves : list string)
    (prompt : string) (fuel : nat) :
  forall w r w',
    entity_possible_moves_loop fuel moves prompt w = (r, w') ->
    (r = Val DoubleDown -> mem "(D)ouble down" moves = true)
    /\ (r = Val Split -> mem "(X)split" moves = true).
Proof.
  induction fuel as [|fuel IH]; intros w r w' E;
    cbn [entity_possible_moves_loop] in E.
  - injection E as <- <-. split; discriminate.
  - unfold bind at 1 in E. rewrite input_run in E.
    destruct (stdin w) as [|l lines];
      [injection E as <- <-; split; discriminate|].
    cbv zeta in E.
    destruct (String.eqb (str_upper (str_strip l)) "H");
      [injection E as <- <-; split; discriminate|].
    destruct (String.eqb (str_upper (str_strip l)) "S");
      [injection E as <- <-; split; discriminate|].
    destruct (String.eqb (str_upper (str_strip l)) "D"
              && mem "(D)ouble down" moves) eqn:Hd;
      [injection E as <- <-; split; [intros _|discriminate];
       now apply andb_prop in Hd|].
    destruct (String.eqb (str_upper (str_strip l)) "X"
              && mem "(X)split" moves) eqn:Hx;
      [injection E as <- <-; split; [discriminate|intros _];
       now apply andb_prop in Hx|].
    unfold bind at 1 in E. unfold print at 1 in E. cbv beta iota in E.
    exact (IH _ _ _ E).
Qed.

(** What [entity_possible_moves] returns is on offer, and asking does
    not touch the game. *)
Lemma entity_possible_moves_spec (e : Who) (w w' : World) (r : Res Move) :
  entity_possible_moves e w = (r, w') ->
  self w' = self w
  /\ (r = Val DoubleDown ->
      mem "(D)ouble down" (moves_offered (self w) e) = true)
  /\ (r = Val Split -> mem "(X)split" (moves_offered (self w) e) = true).
Proof.
  intros E.
  split; [exact (keeps_self_entity_possible_moves e w r w' E)|].
  unfold entity_possible_moves, bind, get in E.
  exact (entity_possible_moves_loop_offered _ _ _ _ _ _ E).
Qed.

Lemma entity_bet_loop_spec (e : Who) (amt : Z) (fuel : nat) :
  forall w r w',
    entity_bet_loop fuel e amt w = (r, w') ->
    match r with
    | Val m =>
        1 <= m <= amt
        /\ self w'
           = set_entity e (player_with_money (get_entity e (self w)) m)
                        (self w)
    | _ => self w' = self w
    end.
Proof.
  induction fuel as [|fuel IH]; intros w r w' E; cbn [entity_bet_loop] in E.
  - injection E as <- <-. reflexivity.
  - unfold bind at 1 in E. unfold print at 1 in E. cbv beta iota in E.
    unfold bind at 1 in E. rewrite input_run in E.
    cbn [stdin] in E.
    destruct (stdin w) as [|l lines];
      [injection E as <- <-; reflexivity|].
    cbv zeta in E.
    destruct (String.eqb (str_upper (str_strip l)) "Q").
    { unfold bind, print, sys_exit, raise in E. injection E as <- <-.
      reflexivity. }
    destruct (py_int (str_upper (str_strip l))) as [m|].
    + destruct (Z.leb_spec 1 m) as [H1|H1]; cbn [andb] in E.
      * destruct (Z.leb_spec m amt) as [H2|H2].
        -- unfold bind, modify, ret in E. injection E as <- <-.
           split; [lia|reflexivity].
        -- unfold bind at 1 in E. unfold print at 1 in E.
           cbv beta iota in E. exact (IH _ _ _ E).
      * unfold bind at 1 in E. unfold print at 1 in E.
        cbv beta iota in E. exact (IH _ _ _ E).
    + unfold bind at 1 in E. unfold print at 1 in E.
      cbv beta iota in E. exact (IH _ _ _ E).
Qed.

End Methods.

End Stakes.
Import Stakes.

Module StakeRules.

Lemma triple_exit {A} (I I' P : BlackJack -> Prop) (m : M A)
    (Q : A -> BlackJack -> Prop) :
  (forall g, I g -> I' g) -> triple I P m Q -> triple I' P m Q.
Proof.
  intros HI Hm w r w' HP E. specialize (Hm w r w' HP E).
  destruct r; auto.
Qed.

Lemma triple_if {A} (I P : BlackJack -> Prop) (b : bool) (m1 m2 : M A)
    (Q : A -> BlackJack -> Prop) :
  (b = true -> triple I P m1 Q) -> (b = false -> triple I P m2 Q) ->
  triple I P (if b then m1 else m2) Q.
Proof. destruct b; auto. Qed.

Lemma stake_ok_bank (g g' : BlackJack) :
  bank g' = bank g -> stake_ok g -> stake_ok g'.
Proof.
  unfold bank, stake_ok. intros [= H1 H2 H3 H4].
  rewrite H1, H2, H3, H4. auto.
Qed.

Lemma stake_ok_start (g : BlackJack) : stake_ok g -> 0 <= start_amount g.
Proof. unfold stake_ok. lia. Qed.

Section Methods.

Context {py : Builtins}.

Lemma keeps_stake {A} (m : M A) :
  keeps bank m -> triple stake_ok stake_ok m (fun _ => stake_ok).
Proof.
  intros Hk. apply (triple_keeps bank); [exact Hk|exact stake_ok_bank|auto].
Qed.

Lemma entity_double_down_bank (e : Who) (w w' : World) (r : Res unit) :
  entity_double_down e w = (r, w') ->
  bank (self w')
  = bank (set_entity e
            (player_with_money (get_entity e (self w))
                               (money (get_entity e (self w)) * 2))
            (self w)).
Proof.
  unfold entity_double_down. intros E.
  unfold bind at 1 in E. unfold get at 1 in E.
  unfold bind at 1 in E. unfold print at 1 in E. cbv beta iota zeta in E.
  unfold bind at 1 in E. unfold print at 1 in E. cbv beta iota in E.
  unfold bind at 1 in E. unfold modify at 1 in E. cbv beta iota in E.
  cbn [self stdin stdout rng rng_used] in E.
  assert (Hk : keeps bank
                 (entity_hit e;; g' <- get;;
                  (if get_hand_value (get_entity e g') >? 21
                   then ret tt else entity_stand e))).
  { pose proof (keeps_bank_entity_hit e).
    pose proof (keeps_bank_entity_stand e). keeps_easy. }
  rewrite (Hk _ _ _ E). reflexivity.
Qed.

Lemma entity_split_bank (w w' : World) (r : Res unit) :
  entity_split w = (r, w') ->
  start_amount (self w') = start_amount (self w)
  /\ money (player (self w')) = money (player (self w))
  /\ split (self w') = true
  /\ (money (player_split (self w')) = money (player_split (self w))
      \/ money (player_split (self w')) = money (player (self w))).
Proof.
  unfold entity_split. intros E.
  unfold bind at 1 in E. unfold modify at 1 in E. cbv beta iota in E.
  unfold bind at 1 in E. unfold get at 1 in E.
  unfold bind at 1 in E. unfold print at 1 in E. cbv beta iota in E.
  cbn [self stdin stdout rng rng_used set_split player] in E.
  destruct (pop_last (hand (player (self w)))) as [[card rest]|].
  2: { injection E as <- <-. cbn. auto. }
  unfold bind at 1 in E. unfold modify at 1 in E. cbv beta iota in E.
  cbn [self stdin stdout rng rng_used] in E.
  unfold bind at 1 in E. rewrite deck_pop_run in E. cbn [self] in E.
  match type of E with
  | context [pop_last ?d] => destruct (pop_last d) as [[fresh d1]|]
  end.
  2: { injection E as <- <-. cbn. auto. }
  unfold bind at 1 in E. unfold modify at 1 in E. cbv beta iota in E.
  unfold bind at 1 in E. unfold modify at 1 in E. cbv beta iota in E.
  unfold bind at 1 in E. unfold get at 1 in E.
  unfold bind at 1 in E. unfold print at 1 in E. cbv beta iota in E.
  unfold bind at 1 in E. rewrite deck_pop_run in E.
  cbn [self with_self stdin stdout rng rng_used] in E.
  match type of E with
  | context [pop_last ?d] => destruct (pop_last d) as [[fresh' d2]|]
  end.
  2: { injection E as <- <-. cbn. auto. }
  unfold bind, hand_append, modify, print in E. injection E as <- <-.
  cbn. auto.
Qed.

Lemma check_who_wins_bank (e : Who) (w w' : World) (r : Res unit) :
  check_who_wins e w = (r, w') ->
  money (player (self w')) = money (player (self w))
  /\ money (player_split (self w')) = money (player_split (self w))
  /\ split (self w') = split (self w)
  /\ (start_amount (self w') = start_amount (self w)
      \/ (e = Main \/ split (self w) = true)
         /\ (start_amount (self w')
             = start_amount (self w) - money (get_entity e (self w))
             \/ start_amount (self w')
                = start_amount (self w) + money (get_entity e (self w)))).
Proof.
  unfold check_who_wins. intros E.
  unfold bind at 1 in E. unfold get at 1 in E.
  destruct (negb (player_or_split e) && negb (split (self w))) eqn:Hskip.
  { injection E as <- <-. auto. }
  assert (Hplays : e = Main \/ split (self w) = true).
  { destruct e; [now left|right].
    destruct (split (self w)); [reflexivity|discriminate Hskip]. }
  cbv zeta in E. unfold bind at 1 in E.
  destruct (display_scores_like true true (player_or_split e)
              (negb (player_or_split e)) w)
    as [o [[_ Ed]|[_ Ed]]]; rewrite Ed in E; clear Ed.
  2: { injection E as <- <-. cbn. auto. }
  repeat
    match type of E with
    | (if ?b then _ else _) _ = _ => destruct b
    end;
    unfold bind, print, modify, ret in E; injection E as <- <-; cbn;
    repeat split; auto.
Qed.

Lemma triple_entity_possible_moves (I P : BlackJack -> Prop) (e : Who) :
  (forall g, P g -> I g) ->
  triple I P (entity_possible_moves e)
    (fun mv g =>
       P g
       /\ (mv = DoubleDown ->
           mem "(D)ouble down" (moves_offered g e) = true)
       /\ (mv = Split -> mem "(X)split" (moves_offered g e) = true)).
Proof.
  intros HI w r w' HP E.
  destruct (entity_possible_moves_spec e w w' r E) as (Hs & Hd & Hx).
  rewrite Hs.
  destruct r as [mv| |]; [|now apply HI|now apply HI].
  split; [exact HP|]. split; intros ->; auto.
Qed.

Lemma triple_double_down (e : Who) :
  triple stake_ok
    (fun g => stake_ok g
              /\ mem "(D)ouble down" (moves_offered g Main) = true)
    (entity_double_down e) (fun _ => stake_ok).
Proof.
  intros w r w' [Hs Hd] E.
  apply entity_double_down_bank in E.
  apply double_down_offered in Hd. destruct Hd as (_ & Hsp & _ & Hm).
  cbn [get_entity] in Hm.
  assert (H : stake_ok (self w')).
  { unfold stake_ok in *. unfold bank in E.
    destruct Hs as (H1 & H2 & H3 & H4). specialize (H4 Hsp).
    destruct e; cbn in E; injection E as E1 E2 E3 E4;
      rewrite E1, E2, E3, E4; repeat split; try lia; intros _; lia. }
  destruct r; exact H.
Qed.

Lemma triple_split :
  triple stake_ok
    (fun g => stake_ok g /\ mem "(X)split" (moves_offered g Main) = true)
    entity_split (fun _ => stake_ok).
Proof.
  intros w r w' [Hs Hx] E.
  apply entity_split_bank in E. destruct E as (E1 & E2 & E3 & E4).
  apply split_offered in Hx. destruct Hx as (_ & Hsp & Hm).
  cbn [get_entity] in Hm.
  assert (H : stake_ok (self w')).
  { unfold stake_ok in *.
    destruct Hs as (H1 & H2 & H3 & H4). specialize (H4 Hsp).
    rewrite E1, E2, E3.
    destruct E4 as [E4|E4]; rewrite E4; repeat split; try lia;
      discriminate. }
  destruct r; exact H.
Qed.

Lemma triple_pre {A} (I P P' : BlackJack -> Prop) (m : M A)
    (Q : A -> BlackJack -> Prop) :
  (forall g, P' g -> P g) -> triple I P m Q -> triple I P' m Q.
Proof. intros HP. apply triple_conseq; auto. Qed.

Lemma stake_ret {A} (P : BlackJack -> Prop) (a : A) :
  (forall g, P g -> stake_ok g) ->
  triple stake_ok P (ret a) (fun _ => stake_ok).
Proof. intros HP w r w' H [= <- <-]. now apply HP. Qed.

Lemma stake_keeps {A} (P : BlackJack -> Prop) (m : M A) :
  keeps bank m -> (forall g, P g -> stake_ok g) ->
  triple stake_ok P m (fun _ => stake_ok).
Proof.
  intros Hk HP. apply (triple_pre _ stake_ok); [exact HP|].
  now apply keeps_stake.
Qed.

Lemma entity_play_loop_stake (fuel : nat) (e : Who) :
  triple stake_ok stake_ok (entity_play_loop fuel e) (fun _ => stake_ok).
Proof.
  induction fuel as [|fuel IH]; cbn [entity_play_loop].
  - apply keeps_stake, keeps_out_of_fuel.
  - eapply triple_bind; [apply triple_get|intros g].
    apply triple_if; intros _; [apply stake_ret; tauto|].
    eapply triple_bind; [apply stake_keeps; [apply keeps_print|tauto]|].
    intros ?; cbv beta.
    eapply triple_bind;
      [apply (triple_entity_possible_moves stake_ok stake_ok Main); auto|].
    intros [| | |].
    + (* Hit *)
      eapply triple_bind;
        [apply stake_keeps; [apply (keeps_bank_entity_hit e)|tauto]|].
      intros ?; cbv beta. exact IH.
    + (* Stand *)
      apply stake_keeps; [apply (keeps_bank_entity_stand e)|tauto].
    + (* Double down *)
      apply (triple_pre _ _ _ _ _ (fun g H => conj (proj1 H)
                                     (proj1 (proj2 H) eq_refl))
               (triple_double_down e)).
    + (* Split *)
      eapply triple_bind.
      { apply (triple_pre _ _ _ _ _ (fun g H => conj (proj1 H)
                                       (proj2 (proj2 H) eq_refl))
                 triple_split). }
      intros ?; cbv beta.
      eapply triple_bind.
      { apply keeps_stake.
        apply (keeps_display _ _ _ (display_scores_like _ _ _ _)). }
      intros ?; cbv beta.
      eapply triple_bind; [apply triple_get|intros g'].
      apply triple_if; intros _.
      * apply (triple_pre _ stake_ok); [tauto|exact IH].
      * apply stake_ret; tauto.
Qed.

Lemma entity_play_stake (e : Who) :
  triple stake_ok stake_ok (entity_play e) (fun _ => stake_ok).
Proof.
  unfold entity_play.
  eapply triple_bind; [apply triple_get|intros g].
  apply triple_if; intros _; [apply stake_ret; tauto|].
  intros w r w' [_ HP] E.
  exact (entity_play_loop_stake _ e w r w' HP E).
Qed.

End Methods.

End StakeRules.
Import StakeRules.

Module Session.

Section Methods.

Context {py : Builtins}.

Lemma solvent_keeps {A} (P : BlackJack -> Prop) (m : M A) :
  keeps start_amount m -> (forall g, P g -> solvent g) ->
  triple solvent P m (fun _ => solvent).
Proof.
  intros Hk HP w r w' H E. apply HP in H.
  assert (Hs : solvent (self w'))
    by (unfold solvent; rewrite (Hk w r w' E); exact H).
  destruct r; exact Hs.
Qed.

Lemma triple_entity_bet (amt : Z) :
  triple solvent (fun g => no_stake g /\ amt = start_amount g)
    (entity_bet Main amt) (fun _ => stake_ok).
Proof.
  intros w r w' [(Hs & Hm & H0) Ha] E.
  apply entity_bet_loop_spec in E.
  destruct r as [m| |]; [|unfold solvent; now rewrite E..].
  destruct E as [Hr ->]. unfold stake_ok. cbn.
  repeat split; try lia; intros _; exact Hm.
Qed.

Lemma triple_settle_main :
  triple solvent stake_ok (check_who_wins Main) (fun _ => second_covered).
Proof.
  intros w r w' (H1 & H2 & H3 & H4) E.
  apply check_who_wins_bank in E.
  destruct E as (E1 & E2 & E3 & E4). cbn [get_entity] in E4.
  assert (H : second_covered (self w'))
    by (unfold second_covered; rewrite E2; lia).
  destruct r; [exact H|unfold solvent, second_covered in *; lia..].
Qed.

Lemma triple_settle_second :
  triple solvent second_covered (check_who_wins Second) (fun _ => solvent).
Proof.
  intros w r w' H E. unfold second_covered in H.
  apply check_who_wins_bank in E.
  destruct E as (E1 & E2 & E3 & E4). cbn [get_entity] in E4.
  assert (Hs : solvent (self w')) by (unfold solvent; lia).
  destruct r; exact Hs.
Qed.

Lemma triple_reset :
  triple solvent solvent reset (fun _ => no_stake).
Proof.
  intros w r w' H E.
  destruct (reset_run w) as (w1 & E1 & Hf & Hs & _).
  rewrite E1 in E. injection E as <- <-.
  destruct Hf as (_ & _ & Hp & Hsp).
  unfold no_stake. rewrite Hp, Hsp, Hs. cbn. auto.
Qed.

Lemma stake_ok_solvent (g : BlackJack) : stake_ok g -> solvent g.
Proof. unfold stake_ok, solvent. lia. Qed.

Lemma no_stake_solvent (g : BlackJack) : no_stake g -> solvent g.
Proof. unfold no_stake, solvent. tauto. Qed.

Lemma game_loop_solvent (fuel : nat) :
  triple solvent no_stake (game_loop fuel) (fun _ => solvent).
Proof.
  induction fuel as [|fuel IH]; cbn [game_loop].
  - apply solvent_keeps; [apply keeps_out_of_fuel|exact no_stake_solvent].
  - eapply triple_bind; [apply triple_get|intros g].
    apply triple_if; intros _.
    { apply solvent_keeps; [keeps_easy|].
      intros g0 [_ H]. now apply no_stake_solvent. }
    eapply triple_bind.
    { apply (triple_keeps (fun g => g) solvent
               (fun g0 => g = g0 /\ no_stake g0));
        [apply keeps_print|intros g0 g1 ->; auto|].
      intros g0 [_ H]. now apply no_stake_solvent. }
    intros ?; cbv beta.
    eapply triple_bind.
    { apply (triple_pre _ _ _ _ _
               (fun g0 (H : g = g0 /\ no_stake g0) =>
                  conj (proj2 H) (f_equal start_amount (proj1 H)))
               (triple_entity_bet (start_amount g))). }
    intros amt; cbv beta.
    eapply triple_bind.
    { apply (triple_exit stake_ok); [exact stake_ok_solvent|].
      apply stake_keeps; [apply keeps_print|tauto]. }
    intros ?; cbv beta.
    eapply triple_bind.
    { apply (triple_exit stake_ok); [exact stake_ok_solvent|].
      apply stake_keeps; [|tauto].
      apply (keeps_display _ _ _ (display_scores_like _ _ _ _)). }
    intros ?; cbv beta.
    eapply triple_bind.
    { apply (triple_exit stake_ok); [exact stake_ok_solvent|].
      apply (entity_play_stake Main). }
    intros ?; cbv beta.
    eapply triple_bind.
    { apply (triple_exit stake_ok); [exact stake_ok_solvent|].
      apply (entity_play_stake Second). }
    intros ?; cbv beta.
    eapply triple_bind.
    { apply (triple_exit stake_ok); [exact stake_ok_solvent|].
      apply stake_keeps; [apply keeps_bank_check_if_dealer_plays|tauto]. }
    intros ?; cbv beta.
    eapply triple_bind; [apply triple_settle_main|].
    intros ?; cbv beta.
    eapply triple_bind; [apply triple_settle_second|].
    intros ?; cbv beta.
    eapply triple_bind;
      [apply solvent_keeps; [apply keeps_input|tauto]|].
    intros ?; cbv beta.
    eapply triple_bind;
      [apply solvent_keeps; [apply keeps_print|tauto]|].
    intros ?; cbv beta.
    eapply triple_bind; [apply triple_reset|].
    intros ?; cbv beta.
    eapply triple_bind.
    { apply (triple_keeps (fun g => g) solvent no_stake);
        [apply keeps_print|intros g0 g1 ->; auto|exact no_stake_solvent]. }
    intros ?; cbv beta.
    exact IH.
Qed.

Lemma game_solvent :
  triple solvent no_stake game (fun _ => solvent).
Proof.
  unfold game.
  eapply triple_bind.
  { apply (triple_keeps (fun g => g) solvent no_stake);
      [apply keeps_print|intros g0 g1 ->; auto|exact no_stake_solvent]. }
  intros ?; cbv beta.
  eapply triple_bind; [apply triple_get|intros g].
  eapply triple_bind.
  { apply (triple_keeps (fun g => g) solvent
             (fun g0 => g = g0 /\ no_stake g0));
      [apply keeps_print|intros g0 g1 ->; auto|].
    intros g0 [_ H]. now apply no_stake_solvent. }
  intros ?; cbv beta.
  intros w r w' [_ H] E.
  exact (game_loop_solvent _ w r w' H E).
Qed.

End Methods.

End Session.
Import Session.

Module CardsKept.

Lemma all_cards_money (e : Who) (m : Z) (g : BlackJack) :
  all_cards (set_entity e (player_with_money (get_entity e g) m) g)
  = all_cards g.
Proof. destruct e; reflexivity. Qed.

Lemma card_eq_dec (c c' : Card) : {c = c'} + {c <> c'}.
Proof.
  decide equality; try apply Z.eq_dec; try apply string_dec.
  decide equality; try apply Z.eq_dec; try apply string_dec.
Qed.

(** Two lists hold the same cards when every card occurs as often in
    the one as in the other. *)
Ltac same_cards :=
  apply (proj2 (Permutation_count_occ card_eq_dec _ _));
  let x := fresh "x" in
  intros x; repeat rewrite count_occ_app; cbn [count_occ];
  repeat rewrite count_occ_app;
  repeat
    match goal with
    | |- context [card_eq_dec ?a ?b] => destruct (card_eq_dec a b)
    end;
  lia.

Lemma all_cards_dealt (e : Who) (c : Card) (d : list Card) (g : BlackJack) :
  deck g = d ++ [c] ->
  Permutation (all_cards g) (all_cards (dealt e c d g)).
Proof.
  intros Hd. unfold all_cards, dealt. rewrite Hd.
  destruct e; cbn [deck player player_split dealer hand base set_entity
                   set_deck get_entity player_with_hand with_hand];
    same_cards.
Qed.

Lemma all_cards_dealer_drew (c : Card) (d : list Card) (g : BlackJack) :
  deck g = d ++ [c] ->
  Permutation (all_cards g)
    (all_cards (set_dealer (with_hand (dealer g) (hand (dealer g) ++ [c]))
                           (set_deck d g))).
Proof.
  intros Hd. unfold all_cards. rewrite Hd.
  cbn [deck player player_split dealer hand set_dealer set_deck with_hand].
  same_cards.
Qed.

Lemma holds_cards_view (cs : list Card) (g g' : BlackJack) :
  all_cards g' = all_cards g -> holds_cards cs g -> holds_cards cs g'.
Proof. unfold holds_cards. now intros ->. Qed.

Section Methods.

Context {py : Builtins}.

Lemma cards_keeps {A} (cs : list Card) (P : BlackJack -> Prop) (m : M A) :
  keeps all_cards m -> (forall g, P g -> holds_cards cs g) ->
  triple (fun _ => True) P m (fun _ => holds_cards cs).
Proof.
  intros Hk HP. apply (triple_pre _ (holds_cards cs)); [exact HP|].
  apply (triple_keeps all_cards); [exact Hk|apply holds_cards_view|auto].
Qed.

Lemma cards_ret {A} (cs : list Card) (P : BlackJack -> Prop) (a : A) :
  (forall g, P g -> holds_cards cs g) ->
  triple (fun _ => True) P (ret a) (fun _ => holds_cards cs).
Proof. intros HP w r w' H [= <- <-]. now apply HP. Qed.

Lemma entity_hit_cards (cs : list Card) (e : Who) :
  triple (fun _ => True) (holds_cards cs) (entity_hit e)
         (fun _ => holds_cards cs).
Proof.
  intros w r w' H E. destruct r as [[]| |]; [|exact I..].
  unfold entity_hit in E.
  unfold bind at 1 in E. rewrite deck_pop_run in E.
  destruct (pop_last (deck (self w))) as [[c d]|] eqn:Hpop;
    [|discriminate E].
  apply pop_last_Some in Hpop.
  unfold bind at 1 in E. unfold get at 1 in E.
  unfold bind at 1 in E. unfold print at 1 in E. cbv beta iota in E.
  unfold bind at 1 in E. unfold print at 1 in E. cbv beta iota in E.
  unfold bind at 1 in E. unfold hand_append, modify in E.
  cbv beta iota in E. cbn [self with_self stdin stdout rng rng_used] in E.
  pose proof (keeps_display all_cards _ _
                (display_scores_like false true true true) _ _ _ E) as Hk.
  cbn [self] in Hk. unfold holds_cards in *. rewrite Hk, H.
  apply (all_cards_dealt e c d (self w) Hpop).
Qed.

Lemma entity_double_down_cards (cs : list Card) (e : Who) :
  triple (fun _ => True) (holds_cards cs) (entity_double_down e)
         (fun _ => holds_cards cs).
Proof.
  assert (Htail : triple (fun _ => True) (holds_cards cs)
                    (entity_hit e;; g' <- get;;
                     (if get_hand_value (get_entity e g') >? 21
                      then ret tt else entity_stand e))
                    (fun _ => holds_cards cs)).
  { eapply triple_bind; [apply (entity_hit_cards cs)|].
    intros ?; cbv beta.
    eapply triple_bind; [apply triple_get|intros g'].
    apply triple_if; intros _; [apply cards_ret; tauto|].
    apply (cards_keeps cs); [|tauto]. unfold entity_stand. keeps_easy. }
  intros w r w' H E. unfold entity_double_down in E.
  unfold bind at 1 in E. unfold get at 1 in E.
  unfold bind at 1 in E. unfold print at 1 in E. cbv beta iota zeta in E.
  unfold bind at 1 in E. unfold print at 1 in E. cbv beta iota in E.
  unfold bind at 1 in E. unfold modify at 1 in E. cbv beta iota in E.
  cbn [self stdin stdout rng rng_used] in E.
  refine (Htail _ r w' _ E).
  cbn [self]. unfold holds_cards. now rewrite all_cards_money.
Qed.

Lemma entity_split_cards (cs : list Card) :
  triple (fun _ => True) (holds_cards cs) entity_split
         (fun _ => holds_cards cs).
Proof.
  intros w r w' H E. destruct r as [[]| |]; [|exact I..].
  unfold entity_split in E.
  unfold bind at 1 in E. unfold modify at 1 in E. cbv beta iota in E.
  unfold bind at 1 in E. unfold get at 1 in E.
  unfold bind at 1 in E. unfold print at 1 in E. cbv beta iota in E.
  cbn [self stdin stdout rng rng_used set_split player] in E.
  destruct (pop_last (hand (player (self w)))) as [[card rest]|] eqn:Hh;
    [|discriminate E].
  apply pop_last_Some in Hh.
  unfold bind at 1 in E. unfold modify at 1 in E. cbv beta iota in E.
  cbn [self stdin stdout rng rng_used] in E.
  unfold bind at 1 in E. rewrite deck_pop_run in E. cbn [self] in E.
  match type of E with
  | context [pop_last ?d] =>
      destruct (pop_last d) as [[fresh d1]|] eqn:Hd1; [|discriminate E]
  end.
  apply pop_last_Some in Hd1.
  unfold bind at 1 in E. unfold modify at 1 in E. cbv beta iota in E.
  unfold bind at 1 in E. unfold modify at 1 in E. cbv beta iota in E.
  unfold bind at 1 in E. unfold get at 1 in E.
  unfold bind at 1 in E. unfold print at 1 in E. cbv beta iota in E.
  unfold bind at 1 in E. rewrite deck_pop_run in E.
  cbn [self with_self stdin stdout rng rng_used] in E.
  match type of E with
  | context [pop_last ?d] =>
      destruct (pop_last d) as [[fresh' d2]|] eqn:Hd2; [|discriminate E]
  end.
  apply pop_last_Some in Hd2.
  unfold bind, hand_append, modify, print in E. injection E as <-.
  cbn in Hd1, Hd2. subst d1.
  unfold holds_cards in *. rewrite H. unfold all_cards.
  cbn. rewrite Hd1, Hh.
  same_cards.
Qed.

End Methods.

End CardsKept.
Import CardsKept.

Module CardsKeptLoops.

Section Methods.

Context {py : Builtins}.

Lemma entity_play_loop_cards (cs : list Card) (fuel : nat) (e : Who) :
  triple (fun _ => True) (holds_cards cs) (entity_play_loop fuel e)
         (fun _ => holds_cards cs).
Proof.
  induction fuel as [|fuel IH]; cbn [entity_play_loop].
  - apply (cards_keeps cs); [apply keeps_out_of_fuel|tauto].
  - eapply triple_bind; [apply triple_get|intros g].
    apply triple_if; intros _; [apply cards_ret; tauto|].
    eapply triple_bind; [apply (cards_keeps cs); [apply keeps_print|tauto]|].
    intros ?; cbv beta.
    eapply triple_bind.
    { apply (cards_keeps cs); [|tauto].
      intros w r w' E.
      now rewrite (keeps_self_entity_possible_moves Main w r w' E). }
    intros [| | |]; cbv beta.
    + eapply triple_bind; [apply (entity_hit_cards cs)|].
      intros ?; cbv beta. exact IH.
    + apply (cards_keeps cs); [|tauto]. unfold entity_stand. keeps_easy.
    + apply entity_double_down_cards.
    + eapply triple_bind; [apply (entity_split_cards cs)|].
      intros ?; cbv beta.
      eapply triple_bind.
      { apply (cards_keeps cs); [|tauto].
        apply (keeps_display _ _ _ (display_scores_like _ _ _ _)). }
      intros ?; cbv beta.
      eapply triple_bind; [apply triple_get|intros g'].
      apply triple_if; intros _.
      * apply (triple_pre _ (holds_cards cs)); [tauto|exact IH].
      * apply cards_ret; tauto.
Qed.

Lemma dealer_play_loop_cards (fuel : nat) :
  forall w r w',
    dealer_play_loop fuel w = (r, w') ->
    Permutation (all_cards (self w)) (all_cards (self w')).
Proof.
  induction fuel as [|fuel IH]; intros w r w' E.
  - injection E as <- <-. reflexivity.
  - cbn [dealer_play_loop] in E.
    unfold bind at 1 in E. unfold get at 1 in E.
    destruct (get_hand_value (dealer (self w)) <? 17);
      [|injection E as <- <-; reflexivity].
    unfold bind at 1 in E. unfold print at 1 in E. cbv beta iota in E.
    unfold bind at 1 in E. rewrite deck_pop_run in E. cbn [self add_out] in E.
    destruct (pop_last (deck (self w))) as [[c d]|] eqn:Hpop;
      [|injection E as <- <-; reflexivity].
    apply pop_last_Some in Hpop.
    rewrite (all_cards_dealer_drew c d (self w) Hpop).
    unfold bind at 1 in E. unfold modify at 1 in E. cbv beta iota in E.
    cbn [self with_self stdin stdout rng rng_used] in E.
    unfold bind at 1 in E.
    match type of E with
    | context [display_scores _ _ _ _ ?W] =>
        destruct (display_scores_like false true true true W)
          as [out [[_ Ed]|[_ Ed]]]; rewrite Ed in E; clear Ed
    end;
      [|injection E as <- <-; reflexivity].
    unfold bind at 1 in E. unfold get at 1 in E.
    match type of E with
    | context [if ?b then _ else _] => destruct b
    end; [injection E as <- <-; reflexivity|].
    unfold bind at 1 in E. rewrite input_run in E. cbn [stdin add_out] in E.
    destruct (stdin w) as [|l lines];
      [injection E as <- <-; reflexivity|].
    unfold bind at 1 in E. unfold print at 1 in E. cbv beta iota in E.
    apply IH in E. exact E.
Qed.

Lemma keeps_player_side_dealer_play_loop (fuel : nat) :
  keeps player_side (dealer_play_loop fuel).
Proof.
  assert (Hpop : keeps player_side deck_pop)
    by (apply keeps_deck_pop; intros; reflexivity).
  induction fuel as [|fuel IH]; cbn [dealer_play_loop]; keeps_easy.
  apply keeps_modify. intros g. reflexivity.
Qed.

End Methods.

End CardsKeptLoops.
Import CardsKeptLoops.

Section Turn.

Context {py : Builtins}.

(** X13: a player's turn that returns neither loses nor invents a
    card: the deck and the three hands together hold the same cards
    after [entity_play] as before, whatever moves were typed (hits, a
    double down, a split). *)
Theorem play_keeps_the_cards (e : Who) (w w' : World) :
  entity_play e w = (Val tt, w') ->
  Permutation (all_cards (self w)) (all_cards (self w')).
Proof.
  intros E.
  assert (H : triple (fun _ => True) (holds_cards (all_cards (self w)))
                (entity_play e) (fun _ => holds_cards (all_cards (self w)))).
  { unfold entity_play.
    eapply triple_bind; [apply triple_get|intros g].
    apply triple_if; intros _; [apply cards_ret; tauto|].
    intros v r v' [_ HP] Ev.
    exact (entity_play_loop_cards _ _ e v r v' HP Ev). }
  exact (H w (Val tt) w' (Permutation_refl _) E).
Qed.

(** X14: the dealer's turn, however it ends, keeps the cards of the
    game (deck and hands together) and leaves the player's two hands,
    the bets, the bankroll and the split flag as they were. *)
Theorem dealer_keeps_the_cards (w w' : World) (r : Res unit) :
  check_if_dealer_plays w = (r, w') ->
  Permutation (all_cards (self w)) (all_cards (self w'))
  /\ player (self w') = player (self w)
  /\ player_split (self w') = player_split (self w)
  /\ bank (self w') = bank (self w).
Proof.
  intros E.
  assert (Hside : player_side (self w') = player_side (self w)).
  { revert E. unfold check_if_dealer_plays.
    assert (Hd : keeps player_side dealer_play).
    { intros v r' v' Ev.
      exact (keeps_player_side_dealer_play_loop _ v r' v' Ev). }
    assert (Hk : keeps player_side
                   (g <- get;;
                    (if get_hand_value (player g) <=? limit (player g)
                     then dealer_play
                     else
                       if split g
                          && (get_hand_value (player_split g)
                              <=? limit (player_split g))
                       then dealer_play
                       else ret tt))) by keeps_easy.
    intros E. exact (Hk w r w' E). }
  pose proof (f_equal (fun x => fst (fst x)) Hside) as H1.
  pose proof (f_equal (fun x => snd (fst x)) Hside) as H2.
  pose proof (f_equal snd Hside) as H3.
  cbn [player_side fst snd] in H1, H2, H3.
  split; [|now repeat split].
  unfold check_if_dealer_plays in E.
  unfold bind at 1 in E. unfold get at 1 in E.
  repeat match type of E with
         | (if ?b then _ else _) _ = _ => destruct b
         end;
    try (injection E as <- <-; reflexivity);
    exact (dealer_play_loop_cards _ _ _ _ E).
Qed.

End Turn.

Module Turns.

Section Methods.

Context {py : Builtins}.

Lemma entity_bet_loop_no_index (e : Who) (amt : Z) (fuel : nat) :
  forall w r w',
    entity_bet_loop fuel e amt w = (r, w') -> r <> Raise IndexError.
Proof.
  induction fuel as [|fuel IH]; intros w r w' E; cbn [entity_bet_loop] in E.
  - injection E as <- <-. discriminate.
  - unfold bind at 1 in E. unfold print at 1 in E. cbv beta iota in E.
    unfold bind at 1 in E. rewrite input_run in E.
    cbn [stdin] in E.
    destruct (stdin w) as [|l lines];
      [injection E as <- <-; discriminate|].
    cbv zeta in E.
    destruct (String.eqb (str_upper (str_strip l)) "Q").
    { unfold bind, print, sys_exit, raise in E. injection E as <- <-.
      discriminate. }
    destruct (py_int (str_upper (str_strip l))) as [m|].
    + destruct ((1 <=? m) && (m <=? amt)).
      * unfold bind, modify, ret in E. injection E as <- <-. discriminate.
      * unfold bind at 1 in E. unfold print at 1 in E.
        cbv beta iota in E. exact (IH _ _ _ E).
    + unfold bind at 1 in E. unfold print at 1 in E.
      cbv beta iota in E. exact (IH _ _ _ E).
Qed.

Lemma hard_total_app (l l' : list Card) :
  hard_total (l ++ l') = hard_total l + hard_total l'.
Proof.
  unfold hard_total. induction l as [|x l IH]; cbn [app fold_right]; lia.
Qed.

Lemma choose_stand (w : World) (l : string) (lines : list string) :
  stdin w = l :: lines ->
  str_upper (str_strip l) = "S"%string ->
  exists out,
    entity_possible_moves Main w = (Val Stand, after w (self w) lines out).
Proof.
  intros Hin Hl. unfold entity_possible_moves.
  unfold bind at 1. unfold get at 1. rewrite Hin.
  cbn [List.length entity_possible_moves_loop].
  unfold bind at 1. rewrite input_run, Hin, Hl.
  eexists. reflexivity.
Qed.

End Methods.

End Turns.
Import Turns.

Section Round.

Context {py : Builtins}.

(** X8: [entity_bet] returns only a bet between 1 and [amt], which it
    has stored as the entity's money, changing nothing else of the game,
    and it has read at least one line for it; it never raises
    [IndexError] nor runs out of fuel, and when it raises otherwise (the
    player quits, or the input ends) the game object is as before. *)
Theorem bet_accepted_in_range (e : Who) (amt : Z) (w w' : World)
    (r : Res Z) :
  entity_bet e amt w = (r, w') ->
  match r with
  | Val m =>
      1 <= m <= amt
      /\ self w'
         = set_entity e (player_with_money (get_entity e (self w)) m) (self w)
      /\ (List.length (stdin w') < List.length (stdin w))%nat
  | Raise IndexError => False
  | Raise _ => self w' = self w
  | NoFuel => False
  end.
Proof.
  intros E.
  pose proof (entity_bet_loop_spec e amt _ w r w' E) as Hs.
  pose proof (entity_bet_loop_no_index e amt _ w r w' E) as Hi.
  destruct (reads_entity_bet e amt w r w' E) as (Hf & _ & Hlt).
  destruct r as [m|[| |]|].
  - destruct Hs as [Hr Hs]. repeat split; try lia; try exact Hs.
    exact (Hlt m eq_refl).
  - exact Hs.
  - now apply Hi.
  - exact Hs.
  - now apply Hf.
Qed.

(** X9: [entity_possible_moves] leaves the game object as it is and
    never runs out of fuel.  It returns Double down or Split only for the
    main hand, before any split of the round, and when the bankroll
    covers a second bet of the same size; it returns Split only on a
    hand of exactly two cards whose ranks print alike, which are two
    cards of equal rank when they are cards of the deck; and every move
    it returns was read from at least one line of input. *)
Theorem only_offered_moves (e : Who) (w w' : World) (r : Res Move) :
  entity_possible_moves e w = (r, w') ->
  self w' = self w
  /\ r <> NoFuel
  /\ (r = Val DoubleDown \/ r = Val Split ->
      e = Main /\ split (self w) = false
      /\ money (get_entity e (self w))
         <= start_amount (self w) - money (get_entity e (self w)))
  /\ (r = Val Split ->
      exists c0 c1,
        hand (get_entity e (self w)) = [c0; c1]
        /\ str_rank (rank c0) = str_rank (rank c1)
        /\ (standard c0 -> standard c1 -> rank c0 = rank c1))
  /\ (forall mv, r = Val mv ->
                 (List.length (stdin w') < List.length (stdin w))%nat).
Proof.
  intros E.
  destruct (entity_possible_moves_spec e w w' r E) as (Hs & Hd & Hx).
  destruct (reads_entity_possible_moves e w r w' E) as (Hf & _ & Hlt).
  split; [exact Hs|]. split; [exact Hf|]. split; [|split].
  - intros [Hr|Hr].
    + destruct (double_down_offered _ _ (Hd Hr)) as (He & Hsp & _ & Hm).
      now repeat split.
    + exact (split_offered _ _ (Hx Hr)).
  - intros Hr. specialize (Hx Hr). apply mem_In in Hx.
    apply (proj2 (proj2 (moves_offered_split (self w) e))) in Hx.
    destruct Hx as ((c0 & c1 & Hh & Hrk) & _).
    exists c0, c1. split; [exact Hh|]. split; [exact Hrk|].
    intros H0 H1. now apply (str_rank_standard c0 c1 H0 H1).
  - exact Hlt.
Qed.

(** X10: Split is offered on two cards of the deck only when they have
    the same rank: two different cards worth 10, a king and a queen say,
    cannot be split. *)
Theorem split_needs_equal_rank (g : BlackJack) (c0 c1 : Card) :
  standard c0 -> standard c1 ->
  hand (player g) = [c0; c1] ->
  In "(X)split"%string (moves_offered g Main) ->
  rank c0 = rank c1.
Proof.
  intros H0 H1 Hh Hx.
  apply (proj2 (proj2 (moves_offered_split g Main))) in Hx.
  destruct Hx as ((c0' & c1' & Hh' & Hr) & _).
  cbn [get_entity] in Hh'. rewrite Hh in Hh'. injection Hh' as <- <-.
  now apply (str_rank_standard c0 c1 H0 H1).
Qed.

(** A hit on a deck with a top card: the card is dealt, and the display
    that follows decides between returning and raising. *)
Lemma entity_hit_either (e : Who) (w : World) (c : Card) (d : list Card) :
  deck (self w) = d ++ [c] ->
  exists out,
    (shown_ok true true true (dealt e c d (self w))
     /\ entity_hit e w
        = (Val tt, after w (dealt e c d (self w)) (stdin w) out))
    \/ (~ shown_ok true true true (dealt e c d (self w))
        /\ entity_hit e w
           = (Raise IndexError,
              after w (dealt e c d (self w)) (stdin w) out)).
Proof.
  intros Hd.
  assert (Hstep : exists out0,
             entity_hit e w
             = display_scores false true true true
                 (after w (dealt e c d (self w)) (stdin w) out0)).
  { unfold entity_hit.
    unfold bind at 1. rewrite deck_pop_run, Hd, pop_last_app.
    unfold bind at 1. unfold get at 1.
    unfold bind at 1. unfold print at 1. cbv beta iota.
    unfold bind at 1. unfold print at 1. cbv beta iota.
    unfold bind at 1. unfold hand_append, modify. cbv beta iota.
    cbn [self with_self stdin stdout rng rng_used].
    eexists. unfold after. rewrite <- app_assoc. reflexivity. }
  destruct Hstep as [out0 Hstep].
  destruct (display_scores_like false true true true
              (after w (dealt e c d (self w)) (stdin w) out0))
    as [out [[Hok E]|[Hno E]]];
    exists (out0 ++ out); [left|right]; (split; [assumption|]);
    rewrite Hstep, E; unfold add_out, after;
    cbn [self stdin stdout rng rng_used];
    rewrite <- app_assoc; reflexivity.
Qed.

(** X11: [entity_hit] on an empty deck raises [IndexError] and changes
    nothing.  On a deck [d ++ [c]] it takes the top card [c]: afterwards
    the deck is [d] and the hand of the entity is its hand before with
    [c] added at the end; the entity's bet, limit and name, the other
    hand of the player, the dealer, the bankroll, the split flag and the
    console input are as before, and only printing is added.  It then
    returns when the hands to display each have a card, and raises
    [IndexError] otherwise, the card dealt all the same. *)
Theorem hit_takes_the_top_card (e : Who) (w w' : World) (r : Res unit) :
  entity_hit e w = (r, w') ->
  (deck (self w) = [] -> r = Raise IndexError /\ w' = w)
  /\ (forall c d,
         deck (self w) = d ++ [c] ->
         deck (self w') = d
         /\ hand (get_entity e (self w')) = hand (get_entity e (self w)) ++ [c]
         /\ money (get_entity e (self w')) = money (get_entity e (self w))
         /\ limit (get_entity e (self w')) = limit (get_entity e (self w))
         /\ name (get_entity e (self w')) = name (get_entity e (self w))
         /\ match e with
            | Main => player_split (self w') = player_split (self w)
            | Second => player (self w') = player (self w)
            end
         /\ dealer (self w') = dealer (self w)
         /\ start_amount (self w') = start_amount (self w)
         /\ split (self w') = split (self w)
         /\ player_name (self w') = player_name (self w)
         /\ stdin w' = stdin w
         /\ (exists out, stdout w' = stdout w ++ out)
         /\ (shown_ok true true true (self w') -> r = Val tt)
         /\ (~ shown_ok true true true (self w') -> r = Raise IndexError)).
Proof.
  intros E. split.
  - intros Hd. unfold entity_hit in E. unfold bind at 1 in E.
    rewrite deck_pop_run, Hd in E. cbn [pop_last] in E.
    injection E as <- <-. split; reflexivity.
  - intros c d Hd.
    destruct (entity_hit_either e w c d Hd) as [out [[Hok E']|[Hno E']]];
      rewrite E' in E; injection E as <- <-;
      cbn [self stdin stdout after];
      (repeat (split; [destruct e; reflexivity|]));
      (split; [exists out; reflexivity|]);
      (split; [intros H|intros H]);
      first [reflexivity|contradiction].
Qed.

(** X12: when the hand on turn is at or below its limit and the next
    line of input is S, in any case and with blanks around it,
    [entity_play] returns at once: the game object is unchanged, one
    line is read, and the rest is printing. *)
Theorem stand_ends_turn (e : Who) (w : World) (l : string)
    (lines : list string) :
  e = Main \/ split (self w) = true ->
  get_hand_value (get_entity e (self w)) <= limit (get_entity e (self w)) ->
  stdin w = l :: lines ->
  str_upper (str_strip l) = "S"%string ->
  exists out, entity_play e w = (Val tt, after w (self w) lines out).
Proof.
  intros Hplays Hlive Hin Hl.
  unfold entity_play. unfold bind at 1. unfold get at 1.
  assert (Hgo : negb (player_or_split e) && negb (split (self w)) = false).
  { destruct Hplays as [-> | ->]; [reflexivity|apply andb_false_r]. }
  rewrite Hgo, Hin. cbn [List.length entity_play_loop].
  unfold bind at 1. unfold get at 1.
  destruct (Z.gtb_spec (get_hand_value (get_entity e (self w)))
                       (limit (get_entity e (self w)))) as [Hb|_]; [lia|].
  unfold bind at 1. unfold print at 1. cbv beta iota.
  unfold bind at 1.
  match goal with
  | |- context [entity_possible_moves Main ?W] =>
      destruct (choose_stand W l lines Hin Hl) as [o1 E]; rewrite E; clear E
  end.
  eexists. unfold entity_stand, bind, get, print, after.
  cbn [self stdin stdout rng rng_used].
  rewrite <- !app_assoc. reflexivity.
Qed.

(** X15: when the dealer starts below 17 with a deck of standard cards
    and the turn returns, the dealer's final score is between 17 and 26:
    the last card was drawn below 17 and adds at most 10, and no ace is
    promoted above the dealer's limit of 17. *)
Theorem dealer_ends_17_to_26 (w w' : World) :
  limit (dealer (self w)) = 17 ->
  Forall standard (deck (self w)) ->
  get_hand_value (dealer (self w)) < 17 ->
  dealer_play w = (Val tt, w') ->
  17 <= get_hand_value (dealer (self w')) <= 26.
Proof.
  intros Hlim Hstd Hlow E.
  destruct (dealer_play_loop_spec _ w w' (Val tt)
              (Nat.lt_succ_diag_r _) Hlim E)
    as (rest & drawn & consumed & Hd & Hself & _ & Hbelow & Hval & _).
  destruct (Hval eq_refl) as [H17 _].
  assert (Hv : get_hand_value (dealer (self w'))
               = dealer_score_after (self w) drawn)
    by (rewrite Hself; reflexivity).
  rewrite Hv. split; [exact H17|].
  destruct (exists_last (l := drawn)) as (first & c & Hlast).
  { intros ->. rewrite dealer_score_after_nil in H17. lia. }
  assert (Hprev : dealer_score_after (self w) first < 17).
  { specialize (Hbelow (List.length first)).
    rewrite Hlast, length_app, firstn_app, Nat.sub_diag, firstn_all in Hbelow.
    cbn [firstn List.length] in Hbelow. rewrite app_nil_r in Hbelow.
    apply Hbelow. lia. }
  assert (Hc : standard c).
  { rewrite Forall_forall in Hstd. apply Hstd. rewrite Hd.
    apply in_or_app. right. apply in_rev. rewrite rev_involutive, Hlast.
    apply in_or_app. right. now left. }
  apply standard_value_pos in Hc.
  unfold dealer_score_after in *.
  set (e1 := with_hand (dealer (self w)) (hand (dealer (self w)) ++ first))
    in *.
  set (e2 := with_hand (dealer (self w)) (hand (dealer (self w)) ++ drawn)).
  destruct (get_hand_value_bounds e1) as (Hlo & _).
  destruct (get_hand_value_bounds e2) as (_ & Hup & _).
  assert (Hh : hard_total (hand e2) = hard_total (hand e1) + value c).
  { unfold e1, e2. cbn [hand with_hand]. rewrite Hlast, app_assoc.
    rewrite hard_total_app. change (hard_total [c]) with (value c + 0). lia. }
  assert (Hl2 : limit e2 = 17) by exact Hlim.
  lia.
Qed.

(** X16: a player's turn never stakes more than the bankroll: when the
    bets of the two hands are not negative, sum to at most the bankroll,
    and the second is 0 before a split, the same holds after
    [entity_play], however it ends (returning, or raising in the middle
    of a double down or a split). *)
Theorem stakes_stay_covered (e : Who) (w w' : World) (r : Res unit) :
  stake_ok (self w) ->
  entity_play e w = (r, w') ->
  stake_ok (self w').
Proof.
  intros H E. pose proof (entity_play_stake e w r w' H E) as Hs.
  destruct r; exact Hs.
Qed.

(** X17: the bankroll never goes below 0: from a game between two
    rounds (no split, no second bet) with a bankroll that is not
    negative, [game] leaves a bankroll that is not negative, however the
    session ends and whatever is typed. *)
Theorem bankroll_never_negative (w w' : World) (r : Res unit) :
  split (self w) = false ->
  money (player_split (self w)) = 0 ->
  0 <= start_amount (self w) ->
  game w = (r, w') ->
  0 <= start_amount (self w').
Proof.
  intros Hs Hm H0 E.
  pose proof (game_solvent w r w' (conj Hs (conj Hm H0)) E) as H.
  destruct r; exact H.
Qed.


(** X19: the program, [BlackJack("chinedu").game()], ends by an
    exception on every input and every random source, and the bankroll
    it leaves is not negative. *)
Theorem program_ends_solvent (w : World) :
  (exists e, fst (main w) = Raise e)
  /\ 0 <= start_amount (self (snd (main w))).
Proof.
  unfold main. unfold bind.
  destruct (init_run "chinedu" w) as (w1 & E & Hf & _ & Hb & _).
  rewrite E.
  destruct (game w1) as [r w'] eqn:Eg. cbn [fst snd].
  split; [exact (game_ends_by_raising w1 w' r Eg)|].
  destruct Hf as (_ & _ & Hp & Hsp).
  assert (H : no_stake (self w1)).
  { unfold no_stake. rewrite Hp, Hsp. cbn. repeat split; lia. }
  pose proof (game_solvent w1 r w' H Eg) as Hs.
  destruct r; exact Hs.
Qed.

End Round.

Section Display.

Context {py : Builtins}.

(** X20: [display_scores] only prints: the game object, the input and
    the random source are as before.  It raises [IndexError] exactly
    when a hand it is asked to show is empty (the dealer's, the main
    hand, or the second hand after a split), and returns otherwise. *)
Theorem display_only_prints (flag_dealer show_dealer show_main
    show_split : bool) (w : World) :
  exists out,
    (shown_ok show_dealer show_main show_split (self w)
     /\ display_scores flag_dealer show_dealer show_main show_split w
        = (Val tt, add_out w out))
    \/ (~ shown_ok show_dealer show_main show_split (self w)
        /\ display_scores flag_dealer show_dealer show_main show_split w
           = (Raise IndexError, add_out w out)).
Proof.
  exact (display_scores_like flag_dealer show_dealer show_main show_split w).
Qed.

End Display.


(** ** The claims at concrete tables *)

(** The examples type ASCII text. *)
#[local] Existing Instance AsciiText.builtins.

(** A card is one of the deck: it is found in the list [make_cards]
    builds. *)
Ltac deck_card :=
  unfold standard, ordered_cards; cbn;
  repeat (first [left; reflexivity|right]).

Lemma split_offered_iff_witness :
  In "(X)split"%string (moves_offered pair_table Main)
  /\ ~ In "(X)split"%string (moves_offered royal_table Main).
Proof.
  split.
  - apply (proj2 (proj2 (split_offered_iff pair_table Main))).
    + repeat apply Forall_cons; try apply Forall_nil; deck_card.
    + split.
      * exists (number 8 "♠"), (number 8 "♥"). split; reflexivity.
      * repeat split; cbn; lia.
  - intros Hin.
    assert (Hstd : Forall standard (hand (get_entity Main royal_table)))
      by (repeat apply Forall_cons; try apply Forall_nil; deck_card).
    destruct (proj1 (proj2 (proj2 (split_offered_iff royal_table Main))
                       Hstd) Hin) as ((c0 & c1 & Hh & Hr) & _).
    cbn in Hh. injection Hh as <- <-. discriminate Hr.
Defined.

(** C2: the dealer draws at a score of 20.  A dealer holding an ace and
    a nine scores 20 with a ceiling of 21, which is at least 17, so by the
    specification the dealer stands.  The code scores that hand 10 (the
    dealer's aces are promoted up to 17 only, see
    [dealer_scored_under_17]), draws the five on top of the deck, scores
    15, draws the king under it and ends at 25, above 21, the hand
    [[A; 9; 5; K]] in place of [[A; 9]]. *)
Theorem dealer_draws_on_soft_twenty :
  let w := sitting_at soft_table [EmptyString] in
  score (hand (dealer soft_table)) 21 = 20
  /\ get_hand_value (dealer soft_table) = 10
  /\ fst (dealer_play w) = Val tt
  /\ hand (dealer (self (snd (dealer_play w))))
     = [ace "♠"; number 9 "♥"; number 5 "♦"; king "♥"]
  /\ deck (self (snd (dealer_play w))) = [number 2 "♠"]
  /\ score (hand (dealer (self (snd (dealer_play w))))) 21 = 25.
Proof.
  cbv zeta. split; [reflexivity|]. split; [reflexivity|].
  split; [vm_compute; reflexivity|].
  split; [vm_compute; reflexivity|].
  split; vm_compute; reflexivity.
Qed.

Lemma dealer_hits_below_17_witness :
  exists (rest drawn : list Card) (consumed : list string),
    deck pair_table = rest ++ rev drawn
    /\ drawn = [number 4 "♣"; number 3 "♦"]
    /\ List.length consumed = 2%nat
    /\ 17 <= dealer_score_after pair_table drawn.
Proof.
  pose (w := sitting_at pair_table [EmptyString; EmptyString; EmptyString]).
  assert (Hr : fst (dealer_play w) = Val tt) by (vm_compute; reflexivity).
  destruct (dealer_hits_below_17
              w (snd (dealer_play w)) (fst (dealer_play w)))
    as (_ & rest & drawn & consumed & Hd & Hs & Hc & _ & Hv & _).
  - reflexivity.
  - apply surjective_pairing.
  - exists rest, drawn, consumed.
    destruct (Hv Hr) as [H17 Hp].
    assert (Hdrawn : drawn = [number 4 "♣"; number 3 "♦"]).
    { apply (f_equal (fun g => skipn 2 (hand (dealer g)))) in Hs.
      vm_compute in Hs. symmetry. exact Hs. }
    subst drawn. repeat split; try assumption.
Defined.

Lemma double_down_one_card_then_stop_witness :
  exists out,
    entity_play Main (sitting_at stiff_table ["d"%string])
    = (Val tt,
       after (sitting_at stiff_table ["d"%string])
             (doubled Main (queen "♥") [number 2 "♠"] stiff_table) [] out)
    /\ 21 < get_hand_value
              (player (doubled Main (queen "♥") [number 2 "♠"] stiff_table))
    /\ money (player (doubled Main (queen "♥") [number 2 "♠"] stiff_table))
       = 200.
Proof.
  pose (w := sitting_at stiff_table ["d"%string]).
  destruct (double_down_one_card_then_stop
              Main w (queen "♥") [number 2 "♠"])
    as (_ & _ & _ & _ & Hturn).
  - reflexivity.
  - repeat split; intros; discriminate.
  - destruct (Hturn "d"%string []) as [out E].
    + reflexivity.
    + vm_compute. discriminate.
    + reflexivity.
    + reflexivity.
    + reflexivity.
    + exists out. split; [exact E|]. split; reflexivity.
Defined.

Lemma settlement_by_cases_witness :
  start_amount pair_table = 1000
  /\ start_amount
       (self (snd (check_who_wins Main (sitting_at pair_table [])))) = 1100
  /\ player (self (snd (check_who_wins Main (sitting_at pair_table []))))
     = player pair_table
  /\ exists out,
      check_who_wins Main (sitting_at pair_table [])
      = (Val tt,
         after (sitting_at pair_table []) (set_start_amount 1100 pair_table)
               [] out).
Proof.
  pose (w := sitting_at pair_table []).
  destruct (settlement_by_cases Main w)
    as (out & delta & E & Hs & _ & Hp & _ & _ & _ & _ & _
        & _ & _ & _ & Hwin & _).
  - reflexivity.
  - left. reflexivity.
  - repeat split; intros; discriminate.
  - assert (Hd : delta = 100)
      by (rewrite Hwin; [reflexivity| | |]; vm_compute; congruence).
    subst delta. unfold w in E, Hs, Hp.
    split; [reflexivity|]. split; [exact Hs|]. split; [exact Hp|].
    exists out. exact E.
Defined.

Lemma split_deals_two_hands_witness :
  exists w',
    entity_split (sitting_at pair_table []) = (Val tt, w')
    /\ hand (player (self w')) = [number 8 "♠"; number 3 "♦"]
    /\ hand (player_split (self w')) = [number 8 "♥"; number 4 "♣"]
    /\ money (player_split (self w')) = 100
    /\ split (self w') = true.
Proof.
  destruct (split_deals_two_hands (sitting_at pair_table [])
              (number 8 "♠") (number 8 "♥") (number 4 "♣") (number 3 "♦")
              [number 2 "♠"; king "♥"])
    as (w' & E & Hm & Hs & _ & Hb & _ & Hf & _).
  - reflexivity.
  - reflexivity.
  - reflexivity.
  - exists w'. repeat split; assumption.
Defined.

Lemma main_hand_after_split_witness :
  moves_offered
    (split_hands (number 8 "♠") (number 8 "♥") (number 4 "♣")
                 (number 3 "♦") [number 2 "♠"; king "♥"] pair_table)
    Main
  = ["(H)it"; "(S)tand"]%string.
Proof.
  refine (proj1 (main_hand_after_split
                   (sitting_at pair_table ["x"; "s"]%string)
                   "x"%string ["s"%string]
                   (number 8 "♠") (number 8 "♥") (number 4 "♣")
                   (number 3 "♦") [number 2 "♠"; king "♥"]
                   _ _ _ _ _ _ _ _)).
  - vm_compute. discriminate.
  - reflexivity.
  - reflexivity.
  - reflexivity.
  - reflexivity.
  - reflexivity.
  - reflexivity.
  - discriminate.
Defined.

Lemma broke_session_ends_witness :
  game_loop 1 (sitting_at broke_table ["50"%string])
  = (Raise SystemExit,
     add_out (sitting_at broke_table ["50"%string]) broke_messages).
Proof.
  refine (proj1 (broke_session_ends
                   (sitting_at broke_table ["50"%string]) 0 _)).
  reflexivity.
Defined.

Lemma second_hand_idle_without_split_witness :
  entity_play Second (sitting_at pair_table ["h"%string])
  = (Val tt, sitting_at pair_table ["h"%string]).
Proof.
  refine (proj1 (second_hand_idle_without_split
                   (sitting_at pair_table ["h"%string]) _)).
  reflexivity.
Defined.

(** C8 as the specification states it fails: the pair of eights is
    split, the main hand then holds 11, below its ceiling of 21, and
    Double down, on offer before the split, is no longer; typed all the
    same, it is refused and the bet stays at 100. *)
Lemma double_down_gone_after_split :
  mem "(D)ouble down" (moves_offered pair_table Main) = true
  /\ fst (entity_split (sitting_at pair_table [])) = Val tt
  /\ ~ (get_hand_value
          (player (self (snd (entity_split (sitting_at pair_table [])))))
        < limit (player (self (snd (entity_split (sitting_at pair_table [])))))
        -> mem "(D)ouble down"
               (moves_offered
                  (self (snd (entity_split (sitting_at pair_table []))))
                  Main)
           = true)
  /\ fst (entity_play Main (sitting_at pair_table ["x"; "d"; "s"]%string))
     = Val tt
  /\ money (player (self (snd (entity_play Main
              (sitting_at pair_table ["x"; "d"; "s"]%string)))))
     = 100
  /\ In (Text "Enter a valid choice.")
        (stdout (snd (entity_play Main
                   (sitting_at pair_table ["x"; "d"; "s"]%string)))).
Proof.
  split; [reflexivity|]. split; [reflexivity|].
  split.
  - intros H. assert (Hlt : 11 < 21) by lia.
    specialize (H Hlt). vm_compute in H. discriminate H.
  - split; [vm_compute; reflexivity|].
    split; [vm_compute; reflexivity|].
    vm_compute. tauto.
Qed.

(** ** The deck, the table and the money at concrete tables *)


Lemma player_hand_soft_or_hard_witness :
  get_hand_value (NewPlayer [ace "♠"; number 7 "♥"; ace "♦"] 50 "chinedu")
  = hard_total [ace "♠"; number 7 "♥"; ace "♦"] + 10.
Proof.
  destruct (player_hand_soft_or_hard
              [ace "♠"; number 7 "♥"; ace "♦"] 50 "chinedu") as [E|[E _]].
  - repeat apply Forall_cons; try apply Forall_nil;
      unfold standard, ordered_cards; cbn;
      repeat (first [left; reflexivity|right]).
  - vm_compute in E. discriminate E.
  - exact E.
Defined.

Lemma hand_value_order_free_witness :
  get_hand_value (with_hand (Dealer []) [ace "♠"; number 6 "♥"])
  = get_hand_value (with_hand (Dealer []) [number 6 "♥"; ace "♠"]).
Proof.
  apply (hand_value_order_free (Dealer [])
           [ace "♠"; number 6 "♥"] [number 6 "♥"; ace "♠"]).
  apply perm_swap.
Defined.

Lemma bet_accepted_in_range_witness :
  1 <= 250 <= 1000
  /\ money (player (self (snd (entity_bet Main 1000
              (sitting_at pair_table ["abc"; "5000"; "250"]%string)))))
     = 250.
Proof.
  pose (w := sitting_at pair_table ["abc"; "5000"; "250"]%string).
  assert (Hr : fst (entity_bet Main 1000 w) = Val 250)
    by (vm_compute; reflexivity).
  pose proof (bet_accepted_in_range Main 1000 w
                (snd (entity_bet Main 1000 w)) (fst (entity_bet Main 1000 w))
                (surjective_pairing _)) as H.
  rewrite Hr in H. destruct H as (Hb & Hs & _).
  split; [exact Hb|]. fold w. rewrite Hs. reflexivity.
Defined.

Lemma only_offered_moves_witness :
  fst (entity_possible_moves Main (sitting_at pair_table ["x"%string]))
  = Val Split
  /\ split pair_table = false
  /\ money (player pair_table)
     <= start_amount pair_table - money (player pair_table)
  /\ exists c0 c1,
      hand (player pair_table) = [c0; c1] /\ rank c0 = rank c1.
Proof.
  pose (w := sitting_at pair_table ["x"%string]).
  assert (Hr : fst (entity_possible_moves Main w) = Val Split)
    by (vm_compute; reflexivity).
  destruct (only_offered_moves Main w
              (snd (entity_possible_moves Main w))
              (fst (entity_possible_moves Main w))
              (surjective_pairing _)) as (_ & _ & H & Hx & _).
  destruct (H (or_intror Hr)) as (_ & Hs & Hm).
  destruct (Hx Hr) as (c0 & c1 & Hh & _ & Hrk).
  split; [exact Hr|]. split; [exact Hs|]. split; [exact Hm|].
  exists c0, c1. split; [exact Hh|].
  cbn in Hh. injection Hh as <- <-.
  apply Hrk; deck_card.
Defined.

Lemma split_needs_equal_rank_witness :
  rank (number 8 "♠") = rank (number 8 "♥").
Proof.
  apply (split_needs_equal_rank pair_table).
  - deck_card.
  - deck_card.
  - reflexivity.
  - vm_compute. tauto.
Defined.

Lemma hit_takes_the_top_card_witness :
  fst (entity_hit Main (sitting_at pair_table [])) = Val tt
  /\ deck (self (snd (entity_hit Main (sitting_at pair_table []))))
     = [number 2 "♠"; king "♥"; number 3 "♦"]
  /\ hand (player (self (snd (entity_hit Main (sitting_at pair_table [])))))
     = [number 8 "♠"; number 8 "♥"; number 4 "♣"].
Proof.
  pose (w := sitting_at pair_table []).
  destruct (hit_takes_the_top_card Main w
              (snd (entity_hit Main w)) (fst (entity_hit Main w))
              (surjective_pairing _)) as (_ & H).
  destruct (H (number 4 "♣") [number 2 "♠"; king "♥"; number 3 "♦"]
              eq_refl)
    as (Hd & Hh & _ & _ & _ & _ & _ & _ & _ & _ & _ & _ & Hv & _).
  split; [|split; [exact Hd|exact Hh]].
  apply Hv. vm_compute. repeat split; intros; discriminate.
Defined.

Lemma stand_ends_turn_witness :
  exists out,
    entity_play Main (sitting_at pair_table ["s"%string])
    = (Val tt, after (sitting_at pair_table ["s"%string]) pair_table [] out).
Proof.
  apply (stand_ends_turn Main (sitting_at pair_table ["s"%string])
           "s"%string []).
  - left. reflexivity.
  - vm_compute. discriminate.
  - reflexivity.
  - reflexivity.
Defined.

Lemma play_keeps_the_cards_witness :
  Permutation
    (all_cards pair_table)
    (all_cards (self (snd (entity_play Main
                  (sitting_at pair_table ["x"; "h"; "s"]%string))))).
Proof.
  pose (w := sitting_at pair_table ["x"; "h"; "s"]%string).
  assert (Hr : fst (entity_play Main w) = Val tt)
    by (vm_compute; reflexivity).
  apply (play_keeps_the_cards Main w (snd (entity_play Main w))).
  rewrite <- Hr. apply surjective_pairing.
Defined.

Lemma dealer_keeps_the_cards_witness :
  Permutation
    (all_cards pair_table)
    (all_cards (self (snd (check_if_dealer_plays
                  (sitting_at pair_table [EmptyString]))))).
Proof.
  pose (w := sitting_at pair_table [EmptyString]).
  exact (proj1 (dealer_keeps_the_cards w
                  (snd (check_if_dealer_plays w))
                  (fst (check_if_dealer_plays w))
                  (surjective_pairing _))).
Defined.

Lemma dealer_ends_17_to_26_witness :
  17 <= get_hand_value
          (dealer (self (snd (dealer_play
             (sitting_at pair_table [EmptyString; EmptyString])))))
     <= 26.
Proof.
  pose (w := sitting_at pair_table [EmptyString; EmptyString]).
  assert (Hr : fst (dealer_play w) = Val tt) by (vm_compute; reflexivity).
  apply (dealer_ends_17_to_26 w (snd (dealer_play w))).
  - reflexivity.
  - repeat apply Forall_cons; try apply Forall_nil; deck_card.
  - vm_compute. reflexivity.
  - rewrite <- Hr. apply surjective_pairing.
Defined.

Lemma stakes_stay_covered_witness :
  stake_ok (self (snd (entity_play Main
              (sitting_at pair_table ["x"; "d"; "s"]%string)))).
Proof.
  pose (w := sitting_at pair_table ["x"; "d"; "s"]%string).
  apply (stakes_stay_covered Main w (snd (entity_play Main w))
           (fst (entity_play Main w))).
  - unfold stake_ok. cbn. repeat split; lia.
  - apply surjective_pairing.
Defined.

Lemma bankroll_never_negative_witness :
  0 <= start_amount
         (self (snd (game (sitting_at pair_table
                            ["1000"; "h"; "h"; "q"]%string)))).
Proof.
  pose (w := sitting_at pair_table ["1000"; "h"; "h"; "q"]%string).
  apply (bankroll_never_negative w (snd (game w)) (fst (game w))).
  - reflexivity.
  - reflexivity.
  - cbn. lia.
  - apply surjective_pairing.
Defined.

